(** * tps-ext: token throughput notification, verified against its source

    A shallow embedding of [src/tps-ext.ts]: the usage aggregator
    ([aggregateUsage]), the notification formatter ([formatNotification])
    and the run tracker registered by [tpsExtension].

    JavaScript numbers are IEEE 754 binary64 values; they are modelled by
    the Standard Library's executable specification of floating point
    ([SpecFloat], precision 53, maximal exponent 1024), so that rounding,
    overflow, signed zeros and NaN behave as they do in the program.

    The functions of the host that the program calls are written out after
    the language standard: [Math.max], [Math.trunc], [Number.isFinite] and
    [Number.prototype.toFixed] after ECMA-262, and
    [Number.prototype.toLocaleString] for a host whose default locale is
    en-US. A call that can throw returns a [result]; the two event handlers
    run in a small monad over the state they share (the start instant and
    the calls made to the notification sink), with early [return].

    The file has two parts: the embedding and the vocabulary of the
    properties first, then the facts, ending for each component with the
    properties the specification claims of it (C1 to C10). *)

From Stdlib Require Import ZArith List String Ascii Bool Lia Permutation.
From Stdlib Require Import SpecFloat DecimalString DecimalN.
Import ListNotations.

Local Open Scope string_scope.
Local Open Scope Z_scope.

(** ** JavaScript numbers *)

Module Num.

Definition number : Type := spec_float.

Definition prec : Z := 53.
Definition emax : Z := 1024.

(** The Number of a mathematical integer (a numeric literal such as
    [1000], or an integral time value), rounded to nearest, ties to even. *)
Definition ofZ (n : Z) : number := binary_normalize prec emax n 0 false.

Definition zero : number := S754_zero false.
Definition NaN : number := S754_nan.

Definition add : number -> number -> number := SFadd prec emax.
Definition sub : number -> number -> number := SFsub prec emax.
Definition mul : number -> number -> number := SFmul prec emax.
Definition div : number -> number -> number := SFdiv prec emax.

(** [x < y], [x <= y], [x > y]: false as soon as an operand is NaN. *)
Definition ltb : number -> number -> bool := SFltb.
Definition leb : number -> number -> bool := SFleb.
Definition gtb (x y : number) : bool := SFltb y x.

Definition isNaN (x : number) : bool :=
  match x with S754_nan => true | _ => false end.

(** [Number.isFinite] on a value that is already a Number. *)
Definition isFinite (x : number) : bool :=
  match x with
  | S754_zero _ | S754_finite _ _ _ => true
  | S754_infinity _ | S754_nan => false
  end.

(** The value is a binary64 datum: mantissa and exponent are canonical. *)
Definition valid (x : number) : bool := valid_binary prec emax x.

(** Structural equality (it tells [+0] from [-0], unlike [===]). *)
Definition same (x y : number) : bool :=
  match x, y with
  | S754_zero a, S754_zero b => Bool.eqb a b
  | S754_infinity a, S754_infinity b => Bool.eqb a b
  | S754_nan, S754_nan => true
  | S754_finite a m e, S754_finite b n f =>
      Bool.eqb a b && Pos.eqb m n && Z.eqb e f
  | _, _ => false
  end.

(** [Math.max(x, y)]: NaN if an argument is NaN, and [+0] above [-0]. *)
Definition Math_max (x y : number) : number :=
  match x, y with
  | S754_nan, _ | _, S754_nan => S754_nan
  | S754_zero true, S754_zero false => y
  | _, _ => if SFltb x y then y else x
  end.

(** [Math.trunc(x)]: the integral part, rounding toward zero; the sign is
    kept, so a negative fraction above [-1] gives [-0]. *)
Definition Math_trunc (x : number) : number :=
  match x with
  | S754_finite s m e =>
      if 0 <=? e then x
      else
        match Z.shiftr (Zpos m) (- e) with
        | Zpos q => binary_normalize prec emax (cond_Zopp s (Zpos q)) 0 false
        | _ => S754_zero s
        end
  | _ => x
  end.

(** The integer a Number denotes, when it denotes one. *)
Definition toZ (x : number) : option Z :=
  match x with
  | S754_zero _ => Some 0
  | S754_finite s m e =>
      if 0 <=? e then Some (cond_Zopp s (Zpos m * 2 ^ e))
      else if Zpos m mod 2 ^ (- e) =? 0
           then Some (cond_Zopp s (Zpos m / 2 ^ (- e)))
           else None
  | _ => None
  end.

(** A token count: a non-negative integer in the range where binary64
    holds every integer, in its canonical representation. *)
Definition isCount (x : number) : bool :=
  match toZ x with
  | Some n => (0 <=? n) && (n <? 2 ^ 53) && same x (ofZ n)
  | None => false
  end.

Definition countOf (x : number) : Z :=
  match toZ x with Some n => n | None => 0 end.

End Num.

Import Num.

(** ** JavaScript values ([unknown])

    The data a message sequence holds: primitives, records and arrays. *)

#[warnings="-register-all"]
Inductive value : Type :=
| VUndefined
| VNull
| VBoolean (b : bool)
| VNumber (n : number)
| VString (s : string)
| VObject (props : list (string * value))
| VArray (items : list value).

Definition typeof (v : value) : string :=
  match v with
  | VUndefined => "undefined"
  | VNull => "object"
  | VBoolean _ => "boolean"
  | VNumber _ => "number"
  | VString _ => "string"
  | VObject _ => "object"
  | VArray _ => "object"
  end.

Definition isNull (v : value) : bool :=
  match v with VNull => true | _ => false end.

Fixpoint lookup (k : string) (props : list (string * value)) : value :=
  match props with
  | [] => VUndefined
  | (k', v) :: rest => if String.eqb k k' then v else lookup k rest
  end.

(** [v.k] for a named (non-index) property of a record: own properties of an
    object, [length] of an array, [undefined] otherwise. *)
Definition get (v : value) (k : string) : value :=
  match v with
  | VObject props => lookup k props
  | VArray items =>
      if String.eqb k "length" then VNumber (ofZ (Z.of_nat (List.length items)))
      else VUndefined
  | _ => VUndefined
  end.

(** [v === s] for a string literal [s]. *)
Definition strictEqString (v : value) (s : string) : bool :=
  match v with
  | VString t => String.eqb t s
  | _ => false
  end.

(** ** The usage aggregator *)

Record Usage : Type := mkUsage {
  input : number;
  output : number;
  cacheRead : number;
  cacheWrite : number;
  totalTokens : number
}.

Record Options : Type := mkOptions {
  minOutputTokensToNotify : number;
  minSecondsToNotify : number;
  precision : number;
  showCache : bool;
  showTotals : bool
}.

Definition DEFAULTS : Options :=
  {| minOutputTokensToNotify := ofZ 1;
     minSecondsToNotify := ofZ 0;
     precision := ofZ 1;
     showCache := true;
     showTotals := true |}.

Definition isRecord (v : value) : bool :=
  String.eqb (typeof v) "object" && negb (isNull v).

Definition isAssistantMessage (message : value) : bool :=
  if negb (isRecord message) then false
  else strictEqString (get message "role") "assistant".

(** [Number.isFinite(v)]: false on whatever is not a Number. *)
Definition Number_isFinite (v : value) : bool :=
  match v with
  | VNumber n => isFinite n
  | _ => false
  end.

(** The Number a value of type ["number"] is. *)
Definition asNumber (v : value) : number :=
  match v with
  | VNumber n => n
  | _ => NaN
  end.

Definition readNumber (v : value) : number :=
  if String.eqb (typeof v) "number" && Number_isFinite v then asNumber v
  else zero.

Definition zeroUsage : Usage :=
  {| input := zero; output := zero; cacheRead := zero;
     cacheWrite := zero; totalTokens := zero |}.

(** One iteration of the loop of [aggregateUsage]. *)
Definition aggregateStep (acc : Usage) (m : value) : Usage :=
  if negb (isAssistantMessage m) then acc
  else
    let usage := get m "usage" in
    if negb (isRecord usage) then acc
    else
      {| input := add (input acc) (readNumber (get usage "input"));
         output := add (output acc) (readNumber (get usage "output"));
         cacheRead := add (cacheRead acc) (readNumber (get usage "cacheRead"));
         cacheWrite := add (cacheWrite acc) (readNumber (get usage "cacheWrite"));
         totalTokens := add (totalTokens acc) (readNumber (get usage "totalTokens")) |}.

Definition aggregateUsage (messages : list value) : Usage :=
  fold_left aggregateStep messages zeroUsage.

(** ** Number to string conversions of the host *)

Inductive exn : Type :=
| RangeError.

Inductive result (A : Type) : Type :=
| Ok (a : A)
| Throw (e : exn).

Arguments Ok {A} a.
Arguments Throw {A} e.

Definition bind {A B : Type} (r : result A) (k : A -> result B) : result B :=
  match r with
  | Ok a => k a
  | Throw e => Throw e
  end.

Notation "x <- r ;; k" := (bind r (fun x => k))
  (at level 61, r at next level, right associativity).

Module Fmt.

(** Decimal digits of a natural number, ["0"] for zero. *)
Definition digits (n : Z) : string :=
  NilZero.string_of_uint (N.to_uint (Z.to_N n)).

Fixpoint zeros (k : nat) : string :=
  match k with
  | O => EmptyString
  | S k' => String "0" (zeros k')
  end.

(** [ToIntegerOrInfinity], followed by the range check of [toFixed]:
    the number of fraction digits, or [None] where [toFixed] throws. *)
Definition fractionDigits (fd : number) : option Z :=
  match fd with
  | S754_nan | S754_zero _ => Some 0
  | S754_infinity _ => None
  | S754_finite s m e =>
      let t := if 0 <=? e then Zpos m * 2 ^ e else Z.shiftr (Zpos m) (- e) in
      let f := cond_Zopp s t in
      if (0 <=? f) && (f <=? 100) then Some f else None
  end.

(** The integer [n] nearest to [m * 2^e * 10^f], the larger one on a tie. *)
Definition scaled (m : positive) (e : Z) (f : Z) : Z :=
  if 0 <=? e then Zpos m * 2 ^ e * 10 ^ f
  else (2 * Zpos m * 10 ^ f + 2 ^ (- e)) / 2 ^ (- e + 1).

(** Steps 10.b-10.c of [toFixed]: the digits of [n] with a decimal point
    before the last [f] of them, padded with zeros on the left. *)
Definition pointed (n : Z) (f : nat) : string :=
  let m := digits n in
  match f with
  | O => m
  | S _ =>
      let k := String.length m in
      let m := if (k <=? f)%nat then zeros (f + 1 - k) ++ m else m in
      let k := String.length m in
      substring 0 (k - f) m ++ "." ++ substring (k - f) f m
  end.

(** [m * 2^e >= 10^21] *)
Definition atLeast1e21 (m : positive) (e : Z) : bool :=
  if 0 <=? e then 10 ^ 21 <=? Zpos m * 2 ^ e
  else 10 ^ 21 * 2 ^ (- e) <=? Zpos m.

(** Number of decimal digits of a positive integer. *)
Definition decimalLength (x : Z) : Z := Z.of_nat (String.length (digits x)).

(** Half the gap between [m * 2^e], an integer from [2^53] on, and the
    binary64 value below it, and half the gap to the one above it. The gap
    below is half the gap above when [m] is the least 53-bit mantissa. *)
Definition halfGapBelow (m : positive) (e : Z) : Z :=
  if (Zpos m =? 2 ^ 52) then 2 ^ (e - 2) else 2 ^ (e - 1).
Definition halfGapAbove (e : Z) : Z := 2 ^ (e - 1).

(** The integer [v] rounds to the binary64 value [m * 2^e] (ties to even). *)
Definition roundsTo (m : positive) (e : Z) (v : Z) : bool :=
  let x := Zpos m * 2 ^ e in
  let lo := x - halfGapBelow m e in
  let hi := x + halfGapAbove e in
  if Z.even (Zpos m) then (lo <=? v) && (v <=? hi)
  else (lo <? v) && (v <? hi).

(** Search for the shortest decimal significand [s] (of [k] digits, [k]
    counting up) with [s * 10^(n-k)] rounding to [x = m * 2^e]; the result
    is [(s, n)]. *)
Fixpoint shortest (fuel : nat) (k : Z) (m : positive) (e : Z) : Z * Z :=
  let x := Zpos m * 2 ^ e in
  let n := decimalLength x in
  match fuel with
  | O => (x, n)
  | S fuel' =>
      let p := 10 ^ (n - k) in
      let s1 := x / p in
      let s2 := s1 + 1 in
      let ok1 := roundsTo m e (s1 * p) in
      let ok2 := roundsTo m e (s2 * p) in
      let pick (s : Z) := if s =? 10 ^ k then (10 ^ (k - 1), n + 1) else (s, n) in
      if ok1 && ok2 then
        if (x - s1 * p <=? s2 * p - x) then pick s1 else pick s2
      else if ok1 then pick s1
      else if ok2 then pick s2
      else shortest fuel' (k + 1) m e
  end.

(** [Number::toString] on a finite [x = m * 2^e >= 10^21], where it always
    takes the exponential form [d.ddde+N]. *)
Definition exponential (m : positive) (e : Z) : string :=
  let '(s, n) := shortest 17 1 m e in
  let ds := digits s in
  let mant :=
    match ds with
    | String d EmptyString => String d EmptyString
    | String d rest => String d ("." ++ rest)
    | EmptyString => EmptyString
    end in
  mant ++ "e+" ++ digits (n - 1).

(** [toFixed] once the number [f] of fraction digits is known (steps 6
    to 12): non-finite values and values from [10^21] on are printed as
    [Number::toString] prints them. *)
Definition fixedText (x : number) (f : Z) : string :=
  match x with
  | S754_nan => "NaN"
  | S754_infinity false => "Infinity"
  | S754_infinity true => "-Infinity"
  | S754_zero _ => pointed 0 (Z.to_nat f)
  | S754_finite s m e =>
      (if s then "-" else EmptyString) ++
      (if atLeast1e21 m e then exponential m e
       else pointed (scaled m e f) (Z.to_nat f))
  end.

(** [Number.prototype.toFixed(fractionDigits)] *)
Definition toFixed (x : number) (fd : number) : result string :=
  match fractionDigits fd with
  | None => Throw RangeError
  | Some f => Ok (fixedText x f)
  end.

(** Thousands grouping: a [","] before every group of three digits,
    counted from the right. *)
Fixpoint groupFrom (ds : list ascii) (left : nat) : list ascii :=
  match ds with
  | [] => []
  | d :: rest =>
      let tail := groupFrom rest (left - 1) in
      if ((1 <? left) && (Nat.modulo (left - 1) 3 =? 0))%nat
      then d :: ","%char :: tail
      else d :: tail
  end.

Definition group3 (ds : string) : string :=
  string_of_list_ascii
    (groupFrom (list_ascii_of_string ds) (String.length ds)).

Fixpoint stripZeros (rev : list ascii) : list ascii :=
  match rev with
  | "0"%char :: rest => stripZeros rest
  | _ => rev
  end.

(** The fraction of a count of thousandths, without trailing zeros, after
    its decimal point; empty when the fraction is zero. *)
Definition fraction3 (thousandths : Z) : string :=
  let ds := digits thousandths in
  let padded := zeros (3 - String.length ds) ++ ds in
  match List.rev (stripZeros (List.rev (list_ascii_of_string padded))) with
  | [] => EmptyString
  | fr => "." ++ string_of_list_ascii fr
  end.

(** The sign U+221E, as the three bytes of its UTF-8 encoding. *)
Definition infinitySign : string :=
  String (ascii_of_nat 226) (String (ascii_of_nat 136)
    (String (ascii_of_nat 158) EmptyString)).

(** The integer digits [toLocaleString] prints for [m * 2^e]: all of them
    below [2^53], and from there on the shortest significand that reads back
    as the same Number, followed by zeros (so [2^64] is printed
    [18,446,744,073,709,552,000]). *)
Definition localeInteger (m : positive) (e : Z) : string :=
  if 1 <=? e then
    let '(s, n) := shortest 17 1 m e in
    let ds := digits s in
    ds ++ zeros (Z.to_nat n - String.length ds)
  else digits (scaled m e 3 / 1000).

Definition localeFraction (m : positive) (e : Z) : string :=
  if 1 <=? e then EmptyString else fraction3 (scaled m e 3 mod 1000).

(** [Number.prototype.toLocaleString()] with no arguments, for a host whose
    default locale is en-US (the locale of the specification's examples:
    [","] groups thousands, ["."] is the decimal mark): digits grouped by
    three, at most three fraction digits rounded half away from zero.
    [fmtInt] passes it integers, infinities and NaN only. *)
Definition toLocaleString (x : number) : string :=
  match x with
  | S754_nan => "NaN"
  | S754_infinity s => (if s then "-" else EmptyString) ++ infinitySign
  | S754_zero s => (if s then "-" else EmptyString) ++ "0"
  | S754_finite s m e =>
      (if s then "-" else EmptyString)
      ++ group3 (localeInteger m e) ++ localeFraction m e
  end.

End Fmt.

Import Fmt.

(** ** The notification formatter *)

Definition fmtInt (n : number) : string :=
  toLocaleString (Math_trunc n).

(** The literal [1e-9]. *)
Definition eps : number := S754_finite false 4835703278458517 (-82).

Definition push (parts : list string) (s : string) : list string :=
  (parts ++ [s])%list.

(** The [parts] array of [formatNotification] as it is when [join] is
    reached; a [toFixed] that throws ends the call. *)
Definition formatParts (elapsedSeconds : number) (usage : Usage)
    (options : Options) : result (list string) :=
  let outTps := div (output usage) (Math_max elapsedSeconds eps) in
  let parts : list string := [] in
  tps <- toFixed outTps (precision options) ;;
  let parts := push parts ("TPS " ++ tps ++ " tok/s") in
  let parts := push parts ("out " ++ fmtInt (output usage)) in
  let parts := push parts ("in " ++ fmtInt (input usage)) in
  parts <-
    (if showCache options then
       let parts :=
         push parts ("cache r/w " ++ fmtInt (cacheRead usage) ++ "/"
                     ++ fmtInt (cacheWrite usage)) in
       let denom := add (input usage) (cacheRead usage) in
       if gtb denom zero then
         let hitRate := div (cacheRead usage) denom in
         pct <- toFixed (mul hitRate (ofZ 100)) (ofZ 0) ;;
         Ok (push parts ("cache% " ++ pct ++ "%"))
       else Ok parts
     else Ok parts) ;;
  parts <-
    (if showTotals options then
       let parts := push parts ("total " ++ fmtInt (totalTokens usage)) in
       let ratio :=
         if gtb (input usage) zero then div (output usage) (input usage)
         else zero in
       if gtb (input usage) zero then
         r <- toFixed ratio (ofZ 2) ;;
         Ok (push parts ("o/i " ++ r))
       else Ok parts
     else Ok parts) ;;
  el <- toFixed elapsedSeconds (precision options) ;;
  Ok (push parts (el ++ "s")).

Definition join (parts : list string) (sep : string) : string :=
  String.concat sep parts.

Definition formatNotification (elapsedSeconds : number) (usage : Usage)
    (options : Options) : result string :=
  parts <- formatParts elapsedSeconds usage options ;;
  Ok (join parts ", ").

(** ** The run tracker *)

(** User options are a partial record; the spread [{ ...DEFAULTS,
    ...userOptions }] lets every field that is present override the default. *)
Record PartialOptions : Type := mkPartial {
  userMinOutputTokensToNotify : option number;
  userMinSecondsToNotify : option number;
  userPrecision : option number;
  userShowCache : option bool;
  userShowTotals : option bool
}.

Definition noOptions : PartialOptions := mkPartial None None None None None.

Definition orDefault {A : Type} (d : A) (u : option A) : A :=
  match u with Some a => a | None => d end.

Definition mergeOptions (d : Options) (u : PartialOptions) : Options :=
  {| minOutputTokensToNotify :=
       orDefault (minOutputTokensToNotify d) (userMinOutputTokensToNotify u);
     minSecondsToNotify :=
       orDefault (minSecondsToNotify d) (userMinSecondsToNotify u);
     precision := orDefault (precision d) (userPrecision u);
     showCache := orDefault (showCache d) (userShowCache u);
     showTotals := orDefault (showTotals d) (userShowTotals u) |}.

(** What the two handlers share and act on: the closure variable
    [agentStartMs], and the calls received so far by the notification sink
    [ctx.ui.notify], oldest first. *)
Record World : Type := mkWorld {
  agentStartMs : option number;
  notified : list (string * string)
}.

Definition initial : World := {| agentStartMs := None; notified := [] |}.

(** How a handler body proceeds after a statement: it goes on, it has
    returned, or it has thrown. *)
Inductive completion (A : Type) : Type :=
| Normal (a : A)
| Returned
| Thrown (e : exn).

Arguments Normal {A} a.
Arguments Returned {A}.
Arguments Thrown {A} e.

Module Handler.

Definition M (A : Type) : Type := World -> completion A * World.

Definition ret {A : Type} (a : A) : M A := fun w => (Normal a, w).

Definition seq {A B : Type} (c : M A) (k : A -> M B) : M B :=
  fun w =>
    match c w with
    | (Normal a, w') => k a w'
    | (Returned, w') => (Returned, w')
    | (Thrown e, w') => (Thrown e, w')
    end.

Definition return_ {A : Type} : M A := fun w => (Returned, w).

(** [if (c) return;] *)
Definition returnIf (c : bool) : M unit :=
  if c then return_ else ret tt.

Definition readStart : M (option number) :=
  fun w => (Normal (agentStartMs w), w).

Definition writeStart (v : option number) : M unit :=
  fun w => (Normal tt, {| agentStartMs := v; notified := notified w |}).

Definition notify (msg severity : string) : M unit :=
  fun w =>
    (Normal tt,
     {| agentStartMs := agentStartMs w;
        notified := (notified w ++ [(msg, severity)])%list |}).

Definition lift {A : Type} (r : result A) : M A :=
  fun w =>
    match r with
    | Ok a => (Normal a, w)
    | Throw e => (Thrown e, w)
    end.

End Handler.

Notation "x <~ c ;; k" := (Handler.seq c (fun x => k))
  (at level 61, c at next level, right associativity).
Notation "c ;;; k" := (Handler.seq c (fun _ => k))
  (at level 61, right associativity).

Record Ctx : Type := mkCtx { hasUI : bool }.

Record AgentEndEvent : Type := mkEvent { messages : list value }.

(** [Date.now()] yields a time value: an integral number of milliseconds,
    given here by the host as [now]. *)
Definition Date_now (now : Z) : number := ofZ now.

Definition onAgentStart (now : Z) : Handler.M unit :=
  Handler.writeStart (Some (Date_now now)).

Definition onAgentEnd (options : Options) (now : Z) (event : AgentEndEvent)
    (ctx : Ctx) : Handler.M unit :=
  Handler.returnIf (negb (hasUI ctx)) ;;;
  start <~ Handler.readStart ;;
  match start with
  | None => Handler.return_
  | Some startMs =>
      let elapsedMs := sub (Date_now now) startMs in
      Handler.writeStart None ;;;
      Handler.returnIf (leb elapsedMs zero) ;;;
      let elapsedSeconds := div elapsedMs (ofZ 1000) in
      let usage := aggregateUsage (messages event) in
      Handler.returnIf (ltb (output usage) (minOutputTokensToNotify options)) ;;;
      Handler.returnIf (ltb elapsedSeconds (minSecondsToNotify options)) ;;;
      msg <~ Handler.lift (formatNotification elapsedSeconds usage options) ;;
      Handler.notify msg "info"
  end.

(** The two handlers [tpsExtension] registers with [pi.on]. *)
Record Extension : Type := mkExtension {
  agent_start : Z -> Handler.M unit;
  agent_end : Z -> AgentEndEvent -> Ctx -> Handler.M unit
}.

Definition tpsExtension (userOptions : PartialOptions) : Extension :=
  let options := mergeOptions DEFAULTS userOptions in
  {| agent_start := onAgentStart;
     agent_end := onAgentEnd options |}.

(** The host's signals, each with the clock reading at its delivery. *)
Inductive signal : Type :=
| RunStart (now : Z)
| RunEnd (now : Z) (event : AgentEndEvent) (ctx : Ctx).

Definition deliver (ext : Extension) (s : signal) : Handler.M unit :=
  match s with
  | RunStart now => agent_start ext now
  | RunEnd now event ctx => agent_end ext now event ctx
  end.

(** The world after a signal has been handled. *)
Definition after (ext : Extension) (s : signal) (w : World) : World :=
  snd (deliver ext s w).

(** The handler threw. *)
Definition raised {A : Type} (c : completion A) : bool :=
  match c with Thrown _ => true | _ => false end.

(** ** Vocabulary of the properties *)

(** The five counters, to speak of them uniformly. *)
Inductive field : Type := Input | Output | CacheRead | CacheWrite | TotalTokens.

Definition proj (f : field) (u : Usage) : number :=
  match f with
  | Input => input u
  | Output => output u
  | CacheRead => cacheRead u
  | CacheWrite => cacheWrite u
  | TotalTokens => totalTokens u
  end.

Definition fieldName (f : field) : string :=
  match f with
  | Input => "input"
  | Output => "output"
  | CacheRead => "cacheRead"
  | CacheWrite => "cacheWrite"
  | TotalTokens => "totalTokens"
  end.

Definition fields : list field := [Input; Output; CacheRead; CacheWrite; TotalTokens].

Definition usageAdd (a b : Usage) : Usage :=
  {| input := add (input a) (input b);
     output := add (output a) (output b);
     cacheRead := add (cacheRead a) (cacheRead b);
     cacheWrite := add (cacheWrite a) (cacheWrite b);
     totalTokens := add (totalTokens a) (totalTokens b) |}.

(** The event reaches the five additions of the loop body. *)
Definition counted (m : value) : bool :=
  isAssistantMessage m && isRecord (get m "usage").

(** What the loop body reads from a counted event for one counter. *)
Definition reading (f : field) (m : value) : number :=
  readNumber (get (get m "usage") (fieldName f)).

Definition nonneg (x : number) : bool := leb zero x.


(** Every number the loop reads from the event is a token count. *)
Definition countsOnly (m : value) : bool :=
  negb (counted m) || forallb (fun f => isCount (reading f m)) fields.

(** The exact sum, in the integers, of what is read for one counter. *)
Fixpoint total (f : field) (ms : list value) : Z :=
  match ms with
  | [] => 0
  | m :: rest => (if counted m then countOf (reading f m) else 0) + total f rest
  end.

(** All five exact sums stay in the range where binary64 holds every integer. *)
Definition withinExact (ms : list value) : bool :=
  forallb (fun f => total f ms <? 2 ^ 53) fields.

(** An assistant event carrying the given usage record. *)
Definition assistant (u : list (string * value)) : value :=
  VObject [("role", VString "assistant"); ("usage", VObject u)].

(** The literals [0.1], [0.2], ... : the Number nearest to [n / 10]. *)
Definition tenths (n : Z) : number := div (ofZ n) (ofZ 10).

(** The largest finite Number, [1.7976931348623157e308]. *)
Definition MAX_VALUE : number := S754_finite false 9007199254740991 971.

(** *** Rounding *)

(** [x] is a zero, a finite number or an infinity of sign [s] (so not NaN). *)
Definition signed (s : bool) (x : number) : Prop :=
  match x with
  | S754_zero s' | S754_infinity s' | S754_finite s' _ _ => s' = s
  | S754_nan => False
  end.

(** [p * 2^k] for [k >= 0]. *)
Definition shl (p : positive) (k : Z) : positive :=
  match k with
  | Zpos d => Pos.iter xO p d
  | _ => p
  end.

(** The canonical mantissa and exponent of a positive integer below [2^53]. *)
Definition mant (p : positive) : positive := shl p (53 - Zpos (Pos.size p)).
Definition expo (p : positive) : Z := Zpos (Pos.size p) - 53.

(** *** The formatter as the specification words it

    The line as an ordered list of optional segments, each present or not by
    a predicate of the inputs, rendered and joined (sections 4.2 and 9 of the
    specification). *)

Inductive segment : Type :=
| Throughput | OutputCount | InputCount
| CacheRW | CacheHitRate
| Total | Ratio
| Elapsed.

Definition allSegments : list segment :=
  [Throughput; OutputCount; InputCount; CacheRW; CacheHitRate; Total; Ratio; Elapsed].

Definition present (u : Usage) (o : Options) (k : segment) : bool :=
  match k with
  | Throughput | OutputCount | InputCount | Elapsed => true
  | CacheRW => showCache o
  | CacheHitRate => showCache o && gtb (add (input u) (cacheRead u)) zero
  | Total => showTotals o
  | Ratio => showTotals o && gtb (input u) zero
  end.

Definition render (e : number) (u : Usage) (o : Options) (k : segment)
    : result string :=
  match k with
  | Throughput =>
      tps <- toFixed (div (output u) (Math_max e eps)) (precision o) ;;
      Ok ("TPS " ++ tps ++ " tok/s")
  | OutputCount => Ok ("out " ++ fmtInt (output u))
  | InputCount => Ok ("in " ++ fmtInt (input u))
  | CacheRW =>
      Ok ("cache r/w " ++ fmtInt (cacheRead u) ++ "/" ++ fmtInt (cacheWrite u))
  | CacheHitRate =>
      pct <- toFixed (mul (div (cacheRead u) (add (input u) (cacheRead u)))
                          (ofZ 100)) (ofZ 0) ;;
      Ok ("cache% " ++ pct ++ "%")
  | Total => Ok ("total " ++ fmtInt (totalTokens u))
  | Ratio =>
      r <- toFixed (div (output u) (input u)) (ofZ 2) ;;
      Ok ("o/i " ++ r)
  | Elapsed =>
      el <- toFixed e (precision o) ;;
      Ok (el ++ "s")
  end.

Fixpoint mapResult {A B : Type} (f : A -> result B) (l : list A)
    : result (list B) :=
  match l with
  | [] => Ok []
  | a :: rest =>
      b <- f a ;;
      bs <- mapResult f rest ;;
      Ok (b :: bs)
  end.

Definition segmentsOf (u : Usage) (o : Options) : list segment :=
  filter (present u o) allSegments.

Definition formatSpec (e : number) (u : Usage) (o : Options) : result string :=
  texts <- mapResult (render e u o) (segmentsOf u o) ;;
  Ok (String.concat ", " texts).

Definition cacheSegment (k : segment) : bool :=
  match k with CacheRW | CacheHitRate => true | _ => false end.

Definition totalsSegment (k : segment) : bool :=
  match k with Total | Ratio => true | _ => false end.

Definition withFlags (o : Options) (cache totals : bool) : Options :=
  {| minOutputTokensToNotify := minOutputTokensToNotify o;
     minSecondsToNotify := minSecondsToNotify o;
     precision := precision o;
     showCache := cache;
     showTotals := totals |}.

(** *** Decimal numerals *)

(** The natural number a string of decimal digits denotes; [None] when a
    character is not a digit. *)
Definition readDigits (s : string) : option Z :=
  match NilEmpty.uint_of_string s with
  | Some d => Some (Z.of_N (N.of_uint d))
  | None => None
  end.







(** *** The run tracker *)

(** The handler from the elapsed-time gate on (lines 116 to 125), given the
    elapsed milliseconds computed before the start instant was reset. *)
Definition gated (options : Options) (elapsedMs : number)
    (event : AgentEndEvent) : Handler.M unit :=
  Handler.returnIf (leb elapsedMs zero) ;;;
  let elapsedSeconds := div elapsedMs (ofZ 1000) in
  let usage := aggregateUsage (messages event) in
  Handler.returnIf (ltb (output usage) (minOutputTokensToNotify options)) ;;;
  Handler.returnIf (ltb elapsedSeconds (minSecondsToNotify options)) ;;;
  msg <~ Handler.lift (formatNotification elapsedSeconds usage options) ;;
  Handler.notify msg "info".

(** The options the handler can work with: thresholds that are numbers
    (not NaN) and a precision that [toFixed] accepts. *)
Definition wellFormed (o : Options) : bool :=
  negb (isNaN (minOutputTokensToNotify o))
  && negb (isNaN (minSecondsToNotify o))
  && match fractionDigits (precision o) with Some _ => true | None => false end.

(** A time value of the host clock: at most 8.64e15 milliseconds from the
    epoch. *)
Definition timeValue (t : Z) : bool := Z.abs t <=? 8640000000000000.

Definition setStart (w : World) (v : option number) : World :=
  {| agentStartMs := v; notified := notified w |}.

(** *** Grouped numerals and runs of signals *)

(** The string without its group separators. *)
Fixpoint ungroup (s : string) : string :=
  match s with
  | EmptyString => EmptyString
  | String c rest =>
      if Ascii.eqb c "," then ungroup rest else String c (ungroup rest)
  end.

(** The host delivers its signals one after the other; a handler that
    throws leaves the world as it was when it threw. *)
Definition runAll (ext : Extension) (signals : list signal) (w : World) : World :=
  fold_left (fun w s => after ext s w) signals w.

Definition isRunStart (s : signal) : bool :=
  match s with RunStart _ => true | RunEnd _ _ _ => false end.

(** The number of runs in progress: one when a start instant is set. *)
Definition pending (w : World) : nat :=
  match agentStartMs w with Some _ => 1 | None => 0 end.

(** The clock readings for which the elapsed milliseconds are exact: from
    the epoch to the largest time value. *)
Definition afterEpoch (t : Z) : bool := (0 <=? t) && (t <=? 8640000000000000).

Fixpoint hasComma (s : string) : bool :=
  match s with
  | EmptyString => false
  | String c rest => Ascii.eqb c "," || hasComma rest
  end.

(** *** The host locale

    [toLocaleString()] is called with no argument, so it prints by the
    default locale of the host; the formatter above is written for an en-US
    host. Here the locale is an input: the separator it puts between groups
    of three digits and its decimal mark (locales that write Western digits
    in groups of three). *)









(** * Facts on binary64 arithmetic *)

Module NumFacts.

(** The constants written out above are the literals of the source: [eps]
    is the quotient [1 / 10^9] rounded to nearest, within half a unit in the
    last place of [10^-9], and [MAX_VALUE] is the largest binary64 value. *)
Lemma eps_literal :
  eps = div (ofZ 1) (ofZ (10 ^ 9))
  /\ 2 * Z.abs (4835703278458517 * 10 ^ 9 - 2 ^ 82) <= 10 ^ 9
  /\ valid eps = true.
Proof. vm_compute. repeat split; discriminate. Qed.

Lemma MAX_VALUE_literal : MAX_VALUE = SFmax_float prec emax.
Proof. reflexivity. Qed.

Lemma digits2_pos_size (p : positive) : digits2_pos p = Pos.size p.
Proof. induction p; simpl; congruence. Qed.

Lemma iter_pos_inv {A : Type} (P : A -> Prop) (f : A -> A) :
  (forall x, P x -> P (f x)) ->
  forall p x, P x -> P (iter_pos f p x).
Proof.
  intros Hf; induction p as [p IH | p IH |]; intros x Hx; simpl; auto.
Qed.

Lemma shr_1_nonneg (r : shr_record) : 0 <= shr_m r -> 0 <= shr_m (shr_1 r).
Proof.
  destruct r as [m r s]; simpl.
  destruct m as [| p | p]; simpl; try lia; destruct p; simpl; lia.
Qed.

Lemma shr_nonneg (r : shr_record) (e n : Z) :
  0 <= shr_m r -> 0 <= shr_m (fst (shr r e n)).
Proof.
  intros H; destruct n as [| p | p]; simpl; auto.
  apply (iter_pos_inv (fun r => 0 <= shr_m r)); auto using shr_1_nonneg.
Qed.

Lemma shr_m_of_loc (m : Z) (l : location) : shr_m (shr_record_of_loc m l) = m.
Proof. destruct l as [| []]; reflexivity. Qed.

Lemma shr_fexp_nonneg (m e : Z) (l : location) :
  0 <= m -> 0 <= shr_m (fst (shr_fexp prec emax m e l)).
Proof.
  intros H; unfold shr_fexp; apply shr_nonneg; rewrite shr_m_of_loc; exact H.
Qed.

Lemma round_nearest_even_nonneg (m : Z) (l : location) :
  0 <= m -> 0 <= round_nearest_even m l.
Proof.
  intros H; destruct l as [| []]; simpl; try lia.
  destruct (Z.even m); lia.
Qed.

Lemma binary_round_aux_signed (s : bool) (m e : Z) (l : location) :
  0 <= m -> signed s (binary_round_aux prec emax s m e l).
Proof.
  intros H; unfold binary_round_aux.
  pose proof (shr_fexp_nonneg m e l H) as H1.
  destruct (shr_fexp prec emax m e l) as [r1 e1]; simpl in H1.
  pose proof (shr_fexp_nonneg _ e1 loc_Exact
                (round_nearest_even_nonneg _ (loc_of_shr_record r1) H1)) as H2.
  destruct (shr_fexp prec emax _ e1 loc_Exact) as [r2 e2]; simpl in H2.
  destruct (shr_m r2) as [| q | q]; simpl; try reflexivity; try lia.
  destruct (_ <=? _); simpl; reflexivity.
Qed.

Lemma binary_round_signed (s : bool) (m : positive) (e : Z) :
  signed s (binary_round prec emax s m e).
Proof.
  unfold binary_round.
  destruct (shl_align m e _) as [mz ez].
  apply binary_round_aux_signed; lia.
Qed.

Lemma signed_not_nan (s : bool) (x : number) : signed s x -> isNaN x = false.
Proof. destruct x; simpl; intros H; [reflexivity .. | contradiction | reflexivity]. Qed.


Lemma binary_normalize_not_nan (m e : Z) :
  isNaN (binary_normalize prec emax m e false) = false.
Proof.
  destruct m as [| p | p]; simpl; try reflexivity;
    eapply signed_not_nan; apply binary_round_signed.
Qed.

(** Adding a finite number never produces NaN. *)
Lemma add_not_nan (x y : number) :
  isNaN x = false -> isFinite y = true -> isNaN (add x y) = false.
Proof.
  unfold add.
  destruct x as [sx | sx | | sx mx ex], y as [sy | sy | | sy my ey];
    simpl; intros Hx Hy; try discriminate; try reflexivity.
  - destruct sx, sy; reflexivity.
  - apply binary_normalize_not_nan.
Qed.

Lemma sub_not_nan (x y : number) :
  isFinite x = true -> isFinite y = true -> isNaN (sub x y) = false.
Proof.
  unfold sub.
  destruct x as [sx | sx | | sx mx ex], y as [sy | sy | | sy my ey];
    simpl; intros Hx Hy; try discriminate; try reflexivity.
  - destruct sx, sy; reflexivity.
  - apply binary_normalize_not_nan.
Qed.

Lemma nonneg_cases (x : number) :
  nonneg x = true ->
  (exists s, x = S754_zero s) \/ x = S754_infinity false \/
  (exists m e, x = S754_finite false m e).
Proof.
  destruct x as [s | [] | | [] m e]; simpl; intros H; try discriminate; eauto.
Qed.


Lemma readNumber_finite (v : value) : isFinite (readNumber v) = true.
Proof.
  unfold readNumber. destruct v; simpl; try reflexivity.
  destruct (isFinite n) eqn:E; [exact E | reflexivity].
Qed.


(** *** Integers below [2^53] are added exactly *)

Lemma iter_xO_spec (p d : positive) :
  Zpos (Pos.iter xO p d) = Zpos p * 2 ^ Zpos d.
Proof.
  change (Pos.iter xO p d) with (shift_pos d p).
  rewrite shift_pos_correct, Z.pow_pos_fold; lia.
Qed.

Lemma shl_spec (p : positive) (k : Z) :
  0 <= k -> Zpos (shl p k) = Zpos p * 2 ^ k.
Proof.
  destruct k as [| d | d]; simpl shl; intros H; try lia.
  apply iter_xO_spec.
Qed.

Lemma size_iter_xO (p d : positive) :
  Zpos (Pos.size (Pos.iter xO p d)) = Zpos (Pos.size p) + Zpos d.
Proof.
  induction d as [| d IH] using Pos.peano_ind.
  - simpl; lia.
  - rewrite Pos.iter_succ; simpl Pos.size; lia.
Qed.

Lemma size_shl (p : positive) (k : Z) :
  0 <= k -> Zpos (Pos.size (shl p k)) = Zpos (Pos.size p) + k.
Proof.
  destruct k as [| d | d]; simpl shl; intros H; try lia.
  apply size_iter_xO.
Qed.

Lemma size_bounds (p : positive) :
  2 ^ (Zpos (Pos.size p) - 1) <= Zpos p < 2 ^ Zpos (Pos.size p).
Proof.
  pose proof (Pos.size_gt p) as Hgt.
  pose proof (Pos.size_le p) as Hle.
  assert (Hpow : forall q, Zpos (2 ^ q) = 2 ^ Zpos q)
    by (intros q; rewrite Pos2Z.inj_pow; reflexivity).
  split.
  - assert (2 ^ Zpos (Pos.size p) <= 2 * Zpos p) by (rewrite <- Hpow; lia).
    replace (Zpos (Pos.size p)) with (Zpos (Pos.size p) - 1 + 1) in H by lia.
    rewrite Z.pow_add_r in H by lia. lia.
  - rewrite <- Hpow; lia.
Qed.

Lemma size_le_mono (p q : positive) :
  Zpos p <= Zpos q -> Zpos (Pos.size p) <= Zpos (Pos.size q).
Proof.
  intros H.
  destruct (Z_le_gt_dec (Zpos (Pos.size p)) (Zpos (Pos.size q))) as [| Hgt]; auto.
  pose proof (size_bounds p) as [Hp _].
  pose proof (size_bounds q) as [_ Hq].
  assert (2 ^ Zpos (Pos.size q) <= 2 ^ (Zpos (Pos.size p) - 1))
    by (apply Z.pow_le_mono_r; lia).
  lia.
Qed.

Lemma size_lt_pow (p : positive) (n : Z) :
  Zpos p < 2 ^ n -> Zpos (Pos.size p) <= n.
Proof.
  intros H.
  destruct (Z_le_gt_dec (Zpos (Pos.size p)) n) as [| Hgt]; auto.
  pose proof (size_bounds p) as [Hp _].
  assert (0 <= n \/ n < 0) as [Hn | Hn] by lia.
  - assert (2 ^ n <= 2 ^ (Zpos (Pos.size p) - 1))
      by (apply Z.pow_le_mono_r; lia).
    lia.
  - rewrite Z.pow_neg_r in H by lia. lia.
Qed.

Lemma iter_pos_iter {A : Type} (f : A -> A) (p : positive) (x : A) :
  iter_pos f p x = Pos.iter f x p.
Proof.
  revert x; induction p as [p IH | p IH |]; intros x; simpl.
  - rewrite !IH, <- !Pos.iter_swap; reflexivity.
  - rewrite !IH; reflexivity.
  - reflexivity.
Qed.

Lemma shr_iter_xO (q d : positive) :
  iter_pos shr_1 d (Build_shr_record (Zpos (Pos.iter xO q d)) false false)
  = Build_shr_record (Zpos q) false false.
Proof.
  rewrite iter_pos_iter.
  induction d as [| d IH] using Pos.peano_ind.
  - reflexivity.
  - rewrite (Pos.iter_succ d positive xO q), (Pos.iter_succ d _ shr_1).
    rewrite <- Pos.iter_swap. simpl shr_1. exact IH.
Qed.

Lemma fexp_canon (d e : Z) :
  - 1074 <= e -> d = 53 -> fexp prec emax (d + e) = e.
Proof. unfold fexp, emin, prec, emax; lia. Qed.

(** Rounding a mantissa with [k] extra low zero bits shifts them out. *)
Lemma binary_round_aux_exact (s : bool) (M q : positive) (E e : Z) :
  Zpos (Pos.size q) = 53 -> - 1074 <= e <= 971 -> E <= e ->
  Zpos M = Zpos q * 2 ^ (e - E) ->
  binary_round_aux prec emax s (Zpos M) E loc_Exact = S754_finite s q e.
Proof.
  intros Hq He HE HM.
  assert (HMq : M = shl q (e - E)).
  { apply Pos2Z.inj; rewrite shl_spec by lia; exact HM. }
  assert (HsM : Zpos (Pos.size M) = 53 + (e - E))
    by (rewrite HMq, size_shl by lia; lia).
  unfold binary_round_aux, shr_fexp.
  simpl Zdigits2. rewrite digits2_pos_size.
  replace (Zpos (Pos.size M) + E) with (53 + e) by lia.
  rewrite fexp_canon by lia.
  assert (Hshr : shr (shr_record_of_loc (Zpos M) loc_Exact) E (e - E)
                 = (Build_shr_record (Zpos q) false false, e)).
  { destruct (e - E) as [| d | d] eqn:Hk; try lia.
    - simpl in *. f_equal; [subst M; reflexivity | lia].
    - unfold shr. simpl shr_record_of_loc. simpl shl in HMq. subst M.
      rewrite shr_iter_xO. f_equal. lia. }
  rewrite Hshr. simpl shr_m. simpl loc_of_shr_record.
  simpl round_nearest_even. simpl Zdigits2. rewrite digits2_pos_size.
  rewrite fexp_canon by lia.
  rewrite Z.sub_diag.
  assert (Hle : (e <=? emax - prec) = true)
    by (apply Z.leb_le; unfold emax, prec; lia).
  cbn [shr shr_m shr_record_of_loc]. rewrite Hle. reflexivity.
Qed.

(** [binary_round] finds the canonical representation [(q, e)] of a value
    given with too many or too few mantissa bits. *)
Lemma binary_round_canon (s : bool) (M q : positive) (E e : Z) :
  Zpos (Pos.size q) = 53 -> - 1074 <= e <= 971 ->
  (E <= e /\ Zpos M = Zpos q * 2 ^ (e - E)) \/
  (e <= E /\ Zpos q = Zpos M * 2 ^ (E - e)) ->
  binary_round prec emax s M E = S754_finite s q e.
Proof.
  intros Hq He [[HE HM] | [HE HM]]; unfold binary_round;
    rewrite digits2_pos_size.
  - assert (HMq : M = shl q (e - E))
      by (apply Pos2Z.inj; rewrite shl_spec by lia; exact HM).
    assert (HsM : Zpos (Pos.size M) = 53 + (e - E))
      by (rewrite HMq, size_shl by lia; lia).
    replace (Zpos (Pos.size M) + E) with (53 + e) by lia.
    rewrite fexp_canon by lia.
    unfold shl_align.
    destruct (e - E) as [| d | d] eqn:Hk; try lia;
      apply binary_round_aux_exact; auto; rewrite Hk; exact HM.
  - assert (HqM : q = shl M (E - e))
      by (apply Pos2Z.inj; rewrite shl_spec by lia; exact HM).
    assert (HsM : 53 = Zpos (Pos.size M) + (E - e))
      by (rewrite <- Hq, HqM, size_shl by lia; lia).
    replace (Zpos (Pos.size M) + E) with (53 + e) by lia.
    rewrite fexp_canon by lia.
    unfold shl_align.
    destruct (e - E) as [| d | d] eqn:Hk; try lia.
    + assert (E = e) by lia. subst E. rewrite Z.sub_diag in HqM.
      simpl in HqM. subst M.
      apply binary_round_aux_exact; auto; try lia; rewrite ?Z.sub_diag; lia.
    + replace (E - e) with (Zpos d) in HqM by lia. simpl in HqM. rewrite <- HqM.
      apply binary_round_aux_exact; auto; try lia; rewrite ?Z.sub_diag; lia.
Qed.

Lemma ofZ_pos (p : positive) :
  Zpos p < 2 ^ 53 -> ofZ (Zpos p) = S754_finite false (mant p) (expo p).
Proof.
  intros Hp. pose proof (size_lt_pow p 53 Hp) as Hs.
  unfold ofZ, binary_normalize, mant, expo.
  apply binary_round_canon.
  - rewrite size_shl by lia; lia.
  - lia.
  - right. split; [lia |]. rewrite shl_spec by lia. f_equal. f_equal. lia.
Qed.

Lemma ofZ_neg (p : positive) :
  Zpos p < 2 ^ 53 -> ofZ (Zneg p) = S754_finite true (mant p) (expo p).
Proof.
  intros Hp. pose proof (size_lt_pow p 53 Hp) as Hs.
  unfold ofZ, binary_normalize, mant, expo.
  apply binary_round_canon.
  - rewrite size_shl by lia; lia.
  - lia.
  - right. split; [lia |]. rewrite shl_spec by lia. f_equal. f_equal. lia.
Qed.

Lemma ofZ_finite (n : Z) : Z.abs n < 2 ^ 53 -> isFinite (ofZ n) = true.
Proof.
  destruct n as [| p | p]; intros H.
  - reflexivity.
  - rewrite ofZ_pos by (simpl in H; lia). reflexivity.
  - rewrite ofZ_neg by (simpl in H; lia). reflexivity.
Qed.

Lemma shl_align_fst (m : positive) (e e' : Z) :
  fst (shl_align m e e') = shl m (e - e').
Proof.
  unfold shl_align, shl.
  destruct (e' - e) as [| d | d] eqn:H1; destruct (e - e') as [| d' | d'] eqn:H2;
    try lia; try reflexivity.
  simpl. f_equal. lia.
Qed.

Lemma add_ofZ_pos (a b : positive) :
  Zpos a + Zpos b < 2 ^ 53 ->
  add (ofZ (Zpos a)) (ofZ (Zpos b)) = ofZ (Zpos a + Zpos b).
Proof.
  intros H.
  change (Zpos a + Zpos b) with (Zpos (a + b)) in *.
  rewrite !ofZ_pos by lia.
  assert (Ha : Zpos (Pos.size a) <= Zpos (Pos.size (a + b)))
    by (apply size_le_mono; lia).
  assert (Hb : Zpos (Pos.size b) <= Zpos (Pos.size (a + b)))
    by (apply size_le_mono; lia).
  pose proof (size_lt_pow _ 53 H) as Hc.
  unfold add, SFadd. simpl cond_Zopp. rewrite !shl_align_fst.
  match goal with
  | |- context [Z.pos ?x + Z.pos ?y] =>
      change (Z.pos x + Z.pos y) with (Z.pos (x + y))
  end.
  unfold binary_normalize.
  apply binary_round_canon.
  - unfold mant; rewrite size_shl by lia; lia.
  - unfold expo; lia.
  - left. unfold expo, mant. split; [lia |].
    rewrite Pos2Z.inj_add, !shl_spec by lia.
    rewrite <- !Z.mul_assoc, <- !Z.pow_add_r by lia.
    rewrite Pos2Z.inj_add, Z.mul_add_distr_r.
    f_equal; f_equal; f_equal; lia.
Qed.

Theorem add_ofZ (a b : Z) :
  0 <= a -> 0 <= b -> a + b < 2 ^ 53 ->
  add (ofZ a) (ofZ b) = ofZ (a + b).
Proof.
  intros Ha Hb H.
  destruct a as [| a | a]; try lia; destruct b as [| b | b]; try lia.
  - reflexivity.
  - simpl Z.add. rewrite ofZ_pos by lia. reflexivity.
  - rewrite Z.add_0_r. rewrite ofZ_pos by lia. reflexivity.
  - apply add_ofZ_pos; exact H.
Qed.

(** *** Comparisons and quotients *)

Lemma compare_antisym (x y : number) :
  SFcompare y x = option_map CompOpp (SFcompare x y).
Proof.
  destruct x as [a | a | | a m e], y as [b | b | | b n f]; simpl;
    try reflexivity;
    try (destruct a; reflexivity); try (destruct b; reflexivity);
    try (destruct a, b; reflexivity).
  rewrite (Z.compare_antisym e f).
  destruct a, b; simpl; try reflexivity;
    destruct (e ?= f); simpl; try reflexivity;
    rewrite !Pos.compare_cont_antisym; reflexivity.
Qed.

Lemma compare_not_nan (x y : number) :
  isNaN x = false -> isNaN y = false -> exists c, SFcompare x y = Some c.
Proof.
  destruct x as [a | a | | a m e], y as [b | b | | b n f]; simpl;
    intros Hx Hy; try discriminate; eauto.
Qed.

(** [!(x < y)] is [y <= x] on numbers other than NaN. *)
Lemma ltb_negb_leb (x y : number) :
  isNaN x = false -> isNaN y = false -> negb (ltb x y) = leb y x.
Proof.
  intros Hx Hy. unfold ltb, leb, SFltb, SFleb.
  rewrite (compare_antisym x y).
  destruct (compare_not_nan x y Hx Hy) as [c ->].
  destruct c; reflexivity.
Qed.

Lemma leb_negb_gtb (x y : number) :
  isNaN x = false -> isNaN y = false -> negb (leb x y) = gtb x y.
Proof.
  intros Hx Hy. unfold gtb, leb, SFltb, SFleb.
  rewrite (compare_antisym x y).
  destruct (compare_not_nan x y Hx Hy) as [c ->].
  destruct c; reflexivity.
Qed.

Lemma div_1000_not_nan (x : number) :
  isNaN x = false -> isNaN (div x (ofZ 1000)) = false.
Proof.
  intros Hx.
  change (ofZ 1000) with (S754_finite false 8796093022208000 (-43)).
  destruct x as [s | s | | s m e]; try discriminate; try reflexivity.
  unfold div, SFdiv.
  destruct (SFdiv_core_binary prec emax (Z.pos m) e
              (Z.pos 8796093022208000) (-43)) as [[mz ez] lz] eqn:E.
  apply (signed_not_nan (xorb s false)).
  apply binary_round_aux_signed.
  unfold SFdiv_core_binary in E.
  match type of E with
  | (let '(q, r) := Z.div_eucl ?a ?b in _) = _ =>
      pose proof (Z_div_mod a b ltac:(lia)) as Hdm;
      assert (Ha : 0 <= a)
  end.
  { match goal with |- 0 <= match ?s with _ => _ end => destruct s end;
      try lia. apply Z.shiftl_nonneg. lia. }
  destruct (Z.div_eucl _ _) as [q r].
  injection E as <- _ _. destruct Hdm as [Hq Hr]. nia.
Qed.

End NumFacts.

Import NumFacts.

(** * The usage aggregator *)

Lemma same_eq (x y : number) : same x y = true -> x = y.
Proof.
  destruct x as [a | a | | a m e], y as [b | b | | b n f]; simpl;
    intros H; try discriminate; try reflexivity.
  - apply Bool.eqb_prop in H; congruence.
  - apply Bool.eqb_prop in H; congruence.
  - apply andb_prop in H as [H He]. apply andb_prop in H as [Ha Hm].
    apply Bool.eqb_prop in Ha. apply Pos.eqb_eq in Hm. apply Z.eqb_eq in He.
    congruence.
Qed.

Lemma isCount_spec (x : number) :
  isCount x = true -> x = ofZ (countOf x) /\ 0 <= countOf x < 2 ^ 53.
Proof.
  unfold isCount, countOf. destruct (toZ x) as [n |]; [| discriminate].
  intros H. apply andb_prop in H as [H Hs]. apply andb_prop in H as [H0 H1].
  apply same_eq in Hs. apply Z.leb_le in H0. apply Z.ltb_lt in H1. auto.
Qed.

Lemma usage_ext (u v : Usage) :
  (forall f, proj f u = proj f v) -> u = v.
Proof.
  intros H. destruct u, v.
  pose proof (H Input); pose proof (H Output); pose proof (H CacheRead);
    pose proof (H CacheWrite); pose proof (H TotalTokens).
  simpl in *; congruence.
Qed.

Lemma aggregateStep_skip (acc : Usage) (m : value) :
  counted m = false -> aggregateStep acc m = acc.
Proof.
  unfold counted, aggregateStep. intros H.
  destruct (isAssistantMessage m); simpl in *; [| reflexivity].
  rewrite H. reflexivity.
Qed.

Lemma in_fields (f : field) : In f fields.
Proof. destruct f; simpl; tauto. Qed.

(** The loop, followed on one counter. *)
Section Counter.

Variable f : field.

Lemma proj_usageAdd (a b : Usage) :
  proj f (usageAdd a b) = add (proj f a) (proj f b).
Proof. destruct f; reflexivity. Qed.

(** The loop body adds what it reads from a counted event. *)
Lemma proj_aggregateStep (acc : Usage) (m : value) :
  proj f (aggregateStep acc m)
  = if counted m then add (proj f acc) (reading f m) else proj f acc.
Proof.
  unfold aggregateStep, counted, reading.
  destruct (isAssistantMessage m); simpl; [| reflexivity].
  destruct (isRecord (get m "usage")); simpl; [| reflexivity].
  destruct f; reflexivity.
Qed.

(** An invariant of the counter that the additions of the loop keep is true
    of the result. *)
Lemma aggregate_invariant (P : number -> Prop) (ms : list value) :
  P zero ->
  (forall x m, In m ms -> counted m = true -> P x -> P (add x (reading f m))) ->
  P (proj f (aggregateUsage ms)).
Proof.
  intros H0 Hstep. unfold aggregateUsage.
  assert (Hgen : forall acc, P (proj f acc) ->
                             P (proj f (fold_left aggregateStep ms acc))).
  { induction ms as [| m ms' IH]; intros acc Hacc; simpl; auto.
    apply IH.
    - intros x m' Hin; apply Hstep; right; exact Hin.
    - rewrite proj_aggregateStep. destruct (counted m) eqn:Hc; auto.
      apply Hstep; auto. left; reflexivity. }
  apply Hgen. destruct f; exact H0.
Qed.

Lemma reading_finite (m : value) : isFinite (reading f m) = true.
Proof. apply readNumber_finite. Qed.

Lemma aggregate_not_nan (ms : list value) :
  isNaN (proj f (aggregateUsage ms)) = false.
Proof.
  apply (aggregate_invariant (fun x => isNaN x = false)); [reflexivity |].
  intros x m _ _ Hx. apply add_not_nan; auto using reading_finite.
Qed.


Lemma countsOnly_reading (m : value) :
  countsOnly m = true -> counted m = true ->
  reading f m = ofZ (countOf (reading f m))
  /\ 0 <= countOf (reading f m) < 2 ^ 53.
Proof.
  unfold countsOnly. intros Hm Hc. rewrite Hc in Hm. cbn [negb orb] in Hm.
  rewrite forallb_forall in Hm. apply isCount_spec, Hm, in_fields.
Qed.

Lemma total_nonneg (ms : list value) :
  forallb countsOnly ms = true -> 0 <= total f ms.
Proof.
  induction ms as [| m ms IH]; simpl; intros H; [lia |].
  apply andb_prop in H as [Hm Hms]. specialize (IH Hms).
  destruct (counted m) eqn:Hc; [| lia].
  destruct (countsOnly_reading m Hm Hc). lia.
Qed.

Lemma total_app (xs ys : list value) :
  total f (xs ++ ys) = total f xs + total f ys.
Proof. induction xs as [| x xs IH]; simpl; [reflexivity | rewrite IH; lia]. Qed.

Lemma total_perm (xs ys : list value) :
  Permutation xs ys -> total f xs = total f ys.
Proof. induction 1; simpl; lia. Qed.

(** On token counts the loop computes the exact sums. *)
Lemma fold_exact (ms : list value) (acc : Usage) (t : Z) :
  forallb countsOnly ms = true ->
  0 <= t -> t + total f ms < 2 ^ 53 ->
  proj f acc = ofZ t ->
  proj f (fold_left aggregateStep ms acc) = ofZ (t + total f ms).
Proof.
  revert acc t. induction ms as [| m ms IH]; intros acc t Hall Ht Hlt Hacc.
  - simpl. rewrite Z.add_0_r. exact Hacc.
  - simpl in Hall. apply andb_prop in Hall as [Hm Hms].
    pose proof (total_nonneg ms Hms) as Hnn.
    simpl in Hlt |- *.
    destruct (counted m) eqn:Hc.
    + destruct (countsOnly_reading m Hm Hc) as [Hr Hb].
      rewrite Z.add_assoc. apply IH; auto; try lia.
      rewrite proj_aggregateStep, Hc, Hacc, Hr at 1.
      rewrite add_ofZ by lia. reflexivity.
    + rewrite aggregateStep_skip by exact Hc.
      rewrite Z.add_0_l. apply IH; auto.
Qed.

Lemma withinExact_spec (ms : list value) :
  withinExact ms = true -> total f ms < 2 ^ 53.
Proof.
  unfold withinExact. rewrite forallb_forall. intros H.
  apply Z.ltb_lt. apply H. apply in_fields.
Qed.

Lemma aggregate_exact (ms : list value) :
  forallb countsOnly ms = true -> withinExact ms = true ->
  proj f (aggregateUsage ms) = ofZ (total f ms).
Proof.
  intros Hall Hw. unfold aggregateUsage.
  rewrite (fold_exact ms zeroUsage 0); auto; try lia.
  - pose proof (withinExact_spec ms Hw); lia.
  - destruct f; reflexivity.
Qed.

End Counter.

(** ** Claims on the aggregator *)




(** C3, as stated, fails on fractional values: with [A = [0.1]] and
    [B = [0.2; 0.3]] the input counter of [A ++ B] is
    [0.6000000000000001] while the sum of the two aggregates is [0.6], and
    reversing [A ++ B] changes the aggregate. *)
Lemma aggregate_not_additive :
  let A := [assistant [("input", VNumber (tenths 1))]] in
  let B := [assistant [("input", VNumber (tenths 2))];
            assistant [("input", VNumber (tenths 3))]] in
  input (aggregateUsage (A ++ B)) = S754_finite false 5404319552844596 (-53)
  /\ add (input (aggregateUsage A)) (input (aggregateUsage B))
     = S754_finite false 5404319552844595 (-53)
  /\ aggregateUsage (A ++ B) <> usageAdd (aggregateUsage A) (aggregateUsage B)
  /\ aggregateUsage (rev (A ++ B)) <> aggregateUsage (A ++ B).
Proof.
  vm_compute. repeat split; discriminate.
Qed.

(** C3, amended: for all event sequences [A] and [B] whose counted events
    carry token counts (non-negative integers) with exact sums below [2^53],
    [aggregate (A ++ B)] equals [aggregate A + aggregate B] field-wise, and
    the aggregate does not depend on the order of the events. *)
Theorem aggregate_additive_on_counts (A B : list value) :
  forallb countsOnly (A ++ B) = true -> withinExact (A ++ B) = true ->
  aggregateUsage (A ++ B) = usageAdd (aggregateUsage A) (aggregateUsage B)
  /\ (forall ms, Permutation (A ++ B) ms ->
                 aggregateUsage ms = aggregateUsage (A ++ B)).
Proof.
  intros Hall Hw.
  pose proof Hall as Hall'. rewrite forallb_app in Hall'.
  apply andb_prop in Hall' as [HA HB].
  assert (HwA : withinExact A = true /\ withinExact B = true).
  { unfold withinExact. rewrite !forallb_forall.
    split; intros f _; apply Z.ltb_lt;
      pose proof (withinExact_spec f _ Hw) as H; rewrite total_app in H;
      pose proof (total_nonneg f A HA); pose proof (total_nonneg f B HB); lia. }
  destruct HwA as [HwA HwB].
  split.
  - apply usage_ext; intros f.
    rewrite proj_usageAdd, !aggregate_exact by assumption.
    pose proof (withinExact_spec f _ Hw) as H; rewrite total_app in H.
    rewrite add_ofZ by (auto using total_nonneg).
    rewrite total_app; reflexivity.
  - intros ms Hp.
    assert (Hms : forallb countsOnly ms = true).
    { rewrite forallb_forall in Hall |- *. intros m Hin. apply Hall.
      apply Permutation_in with (l := ms); [symmetry; exact Hp | exact Hin]. }
    assert (Hwms : withinExact ms = true).
    { unfold withinExact. rewrite forallb_forall. intros f _. apply Z.ltb_lt.
      rewrite <- (total_perm f _ _ Hp). apply withinExact_spec; exact Hw. }
    apply usage_ext; intros f.
    rewrite !aggregate_exact by assumption.
    rewrite (total_perm f _ _ Hp). reflexivity.
Qed.

Lemma aggregate_additive_on_counts_witness :
  let A := [assistant [("input", VNumber (ofZ 1000)); ("output", VNumber (ofZ 500))]] in
  let B := [VNull; assistant [("input", VNumber (ofZ 7)); ("cacheRead", VNumber (ofZ 200))]] in
  forallb countsOnly (A ++ B) = true /\ withinExact (A ++ B) = true /\
  aggregateUsage (A ++ B) = usageAdd (aggregateUsage A) (aggregateUsage B).
Proof.
  intros A B.
  assert (H1 : forallb countsOnly (A ++ B) = true) by reflexivity.
  assert (H2 : withinExact (A ++ B) = true) by reflexivity.
  split; [exact H1 | split; [exact H2 |]].
  exact (proj1 (aggregate_additive_on_counts A B H1 H2)).
Defined.



(** * The notification formatter *)

Lemma toFixed_ok (x fd : number) (f : Z) :
  fractionDigits fd = Some f -> toFixed x fd = Ok (fixedText x f).
Proof. unfold toFixed; intros ->; reflexivity. Qed.

Lemma toFixed_throw (x fd : number) :
  fractionDigits fd = None -> toFixed x fd = Throw RangeError.
Proof. unfold toFixed; intros ->; reflexivity. Qed.

Lemma fractionDigits_0 : fractionDigits (ofZ 0) = Some 0.
Proof. reflexivity. Qed.

Lemma fractionDigits_2 : fractionDigits (ofZ 2) = Some 2.
Proof. reflexivity. Qed.

(** Once the precision is settled every [toFixed] of the formatter returns. *)
Ltac settle_toFixed Hf :=
  rewrite ?(toFixed_ok _ _ _ Hf), ?(toFixed_ok _ _ _ fractionDigits_0),
    ?(toFixed_ok _ _ _ fractionDigits_2).

Section OneCall.

Variables (e : number) (u : Usage) (o : Options).

(** The source and the specification's ordered list of optional segments
    agree on every input, thrown errors included. *)
Lemma formatNotification_refines :
  formatNotification e u o = formatSpec e u o.
Proof.
  unfold formatNotification, formatParts, formatSpec, segmentsOf, allSegments.
  cbn [filter present].
  destruct (fractionDigits (precision o)) as [f |] eqn:Hf.
  - cbn [mapResult render]. settle_toFixed Hf.
    destruct (showCache o), (showTotals o),
      (gtb (add (input u) (cacheRead u)) zero), (gtb (input u) zero);
      cbn [andb filter mapResult render bind push app join];
      settle_toFixed Hf; reflexivity.
  - cbn [mapResult render].
    rewrite !(toFixed_throw _ _ Hf). reflexivity.
Qed.

Lemma formatParts_head (f : Z) :
  fractionDigits (precision o) = Some f ->
  exists rest,
    formatParts e u o
    = Ok (("TPS " ++ fixedText (div (output u) (Math_max e eps)) f ++ " tok/s")
          :: rest).
Proof.
  intros Hf. unfold formatParts. settle_toFixed Hf.
  destruct (showCache o), (showTotals o),
    (gtb (add (input u) (cacheRead u)) zero), (gtb (input u) zero);
    cbn [bind push app]; eexists; reflexivity.
Qed.

Lemma formatNotification_ok (f : Z) :
  fractionDigits (precision o) = Some f ->
  exists line, formatNotification e u o = Ok line.
Proof.
  intros Hf. unfold formatNotification.
  destruct (formatParts_head f Hf) as [rest ->]. eexists; reflexivity.
Qed.

Lemma formatNotification_throw :
  fractionDigits (precision o) = None ->
  formatNotification e u o = Throw RangeError.
Proof.
  intros Hf. unfold formatNotification, formatParts.
  rewrite (toFixed_throw _ _ Hf). reflexivity.
Qed.


End OneCall.

(** *** Strings *)


Lemma append_nil_r (a : string) : a ++ EmptyString = a.
Proof. induction a as [| c a IH]; simpl; [reflexivity | rewrite IH; reflexivity]. Qed.






(** *** Digits *)


Lemma readDigits_digits (n : Z) : 0 <= n -> readDigits (digits n) = Some n.
Proof.
  intros Hn. unfold digits, readDigits.
  pose proof (DecimalN.Unsigned.of_to (Z.to_N n)) as Hof.
  destruct (N.to_uint (Z.to_N n)) as [| d | d | d | d | d | d | d | d | d | d] eqn:E;
    unfold NilZero.string_of_uint;
    try (rewrite NilEmpty.usu, Hof, Z2N.id by lia; reflexivity).
  simpl in Hof |- *. rewrite <- (Z2N.id n) by lia. rewrite <- Hof. reflexivity.
Qed.










(** ** Claims on the formatter *)

(** C4: the two end-to-end examples of the specification. With usage
    [{input:1000, output:500, cacheRead:200, cacheWrite:50,
    totalTokens:1750}], 5 seconds, precision 1 and both flags set, and with
    all-zero usage, 2 seconds and the default options, [formatNotification]
    returns exactly the two lines of the specification. *)
Theorem format_examples :
  (forall minOutput minSeconds : number,
     formatNotification (ofZ 5)
       {| input := ofZ 1000; output := ofZ 500; cacheRead := ofZ 200;
          cacheWrite := ofZ 50; totalTokens := ofZ 1750 |}
       {| minOutputTokensToNotify := minOutput;
          minSecondsToNotify := minSeconds;
          precision := ofZ 1; showCache := true; showTotals := true |}
     = Ok "TPS 100.0 tok/s, out 500, in 1,000, cache r/w 200/50, cache% 17%, total 1,750, o/i 0.50, 5.0s")
  /\ formatNotification (ofZ 2)
       {| input := ofZ 0; output := ofZ 0; cacheRead := ofZ 0;
          cacheWrite := ofZ 0; totalTokens := ofZ 0 |}
       DEFAULTS
     = Ok "TPS 0.0 tok/s, out 0, in 0, cache r/w 0/0, total 0, 2.0s".
Proof.
  split; [intros minOutput minSeconds |]; vm_compute; reflexivity.
Qed.

(** C5: on every input the line is the [", "]-join of the rendered segments
    throughput, output, input, [cache r/w, [cache%]], [total, [o/i]],
    elapsed, in this order (there is a line exactly when the precision is
    one [toFixed] accepts, a [RangeError] otherwise); the cache-hit-rate segment is present iff
    [showCache] holds and [input + cacheRead > 0], the ratio segment iff
    [showTotals] holds and [input > 0]; switching the two flags removes or
    restores their segments and leaves the others in place, with the same
    text. *)
Theorem format_segments (e : number) (u : Usage) (o : Options) :
  formatNotification e u o
  = (texts <- mapResult (render e u o) (segmentsOf u o) ;;
     Ok (String.concat ", " texts))
  /\ (forall f, fractionDigits (precision o) = Some f ->
        exists line, formatNotification e u o = Ok line)
  /\ (fractionDigits (precision o) = None ->
      formatNotification e u o = Throw RangeError)
  /\ segmentsOf u o
     = ([Throughput; OutputCount; InputCount]
        ++ (if showCache o
            then CacheRW ::
                 (if gtb (add (input u) (cacheRead u)) zero
                  then [CacheHitRate] else [])
            else [])
        ++ (if showTotals o
            then Total :: (if gtb (input u) zero then [Ratio] else [])
            else [])
        ++ [Elapsed])%list
  /\ (In CacheHitRate (segmentsOf u o) <->
      showCache o = true /\ gtb (add (input u) (cacheRead u)) zero = true)
  /\ (In Ratio (segmentsOf u o) <->
      showTotals o = true /\ gtb (input u) zero = true)
  /\ (forall c t : bool,
        segmentsOf u (withFlags o c t)
        = filter (fun k => (c || negb (cacheSegment k))
                           && (t || negb (totalsSegment k)))
                 (segmentsOf u (withFlags o true true)))
  /\ (forall (c t : bool) (k : segment),
        render e u (withFlags o c t) k = render e u o k).
Proof.
  split; [apply formatNotification_refines |].
  split; [intros f; apply formatNotification_ok |].
  split; [apply formatNotification_throw |].
  split.
  { unfold segmentsOf, allSegments. cbn [filter present].
    destruct (showCache o), (showTotals o),
      (gtb (add (input u) (cacheRead u)) zero), (gtb (input u) zero);
      reflexivity. }
  split.
  { unfold segmentsOf. rewrite filter_In. cbn [present].
    rewrite andb_true_iff. unfold allSegments. simpl In. tauto. }
  split.
  { unfold segmentsOf. rewrite filter_In. cbn [present].
    rewrite andb_true_iff. unfold allSegments. simpl In. tauto. }
  split.
  { intros c t. unfold segmentsOf, allSegments. cbn [filter present withFlags showCache showTotals].
    destruct c, t, (gtb (add (input u) (cacheRead u)) zero), (gtb (input u) zero);
      reflexivity. }
  intros c t k. destruct k; reflexivity.
Qed.

Lemma format_segments_witness :
  fractionDigits (precision DEFAULTS) = Some 1 /\
  exists line, formatNotification (ofZ 5) zeroUsage DEFAULTS = Ok line.
Proof.
  assert (H : fractionDigits (precision DEFAULTS) = Some 1) by reflexivity.
  split; [exact H |].
  exact (proj1 (proj2 (format_segments (ofZ 5) zeroUsage DEFAULTS)) 1 H).
Defined.












(** * The run tracker *)

Lemma timeValue_finite (t : Z) : timeValue t = true -> isFinite (Date_now t) = true.
Proof.
  unfold timeValue, Date_now. intros H. apply Z.leb_le in H.
  apply ofZ_finite. change (2 ^ 53) with 9007199254740992. lia.
Qed.

Ltac run_handler :=
  unfold Handler.seq, Handler.returnIf, Handler.return_, Handler.ret,
    Handler.readStart, Handler.lift, Handler.notify.

(** One delivery of the run-end signal. *)
Section RunEnd.

Variables (o : Options) (now : Z) (ev : AgentEndEvent) (ctx : Ctx) (w : World).

(** The gates change nothing but the sink. *)
Lemma gated_start (ms : number) :
  agentStartMs (snd (gated o ms ev w)) = agentStartMs w.
Proof.
  unfold gated. run_handler.
  destruct (leb ms zero); [reflexivity |].
  destruct (ltb _ (minOutputTokensToNotify o)); [reflexivity |].
  destruct (ltb _ (minSecondsToNotify o)); [reflexivity |].
  destruct (formatNotification _ _ o); reflexivity.
Qed.

Lemma onAgentEnd_idle :
  agentStartMs w = None -> onAgentEnd o now ev ctx w = (Returned, w).
Proof.
  intros H. unfold onAgentEnd. run_handler.
  destruct (hasUI ctx); simpl; [rewrite H |]; reflexivity.
Qed.

Lemma onAgentEnd_no_ui :
  hasUI ctx = false -> onAgentEnd o now ev ctx w = (Returned, w).
Proof.
  intros H. unfold onAgentEnd. run_handler. rewrite H. reflexivity.
Qed.

(** With a destination and a start instant, the handler resets the start
    instant and then runs the gates. *)
Lemma onAgentEnd_running (t : number) :
  hasUI ctx = true -> agentStartMs w = Some t ->
  onAgentEnd o now ev ctx w
  = gated o (sub (Date_now now) t) ev (setStart w None).
Proof.
  intros Hui Hs. unfold onAgentEnd. run_handler. rewrite Hui. simpl.
  rewrite Hs. reflexivity.
Qed.

End RunEnd.

(** A run whose output is below the threshold reaches no notification. *)
Lemma onAgentEnd_below_threshold (o : Options) (now : Z) (ev : AgentEndEvent)
    (ctx : Ctx) (w : World) :
  ltb (output (aggregateUsage (messages ev))) (minOutputTokensToNotify o) = true ->
  notified (snd (onAgentEnd o now ev ctx w)) = notified w
  /\ raised (fst (onAgentEnd o now ev ctx w)) = false.
Proof.
  intros Hlt.
  destruct (hasUI ctx) eqn:Hui; [| rewrite onAgentEnd_no_ui by exact Hui; auto].
  destruct (agentStartMs w) as [t |] eqn:Hs;
    [| rewrite onAgentEnd_idle by exact Hs; auto].
  rewrite (onAgentEnd_running o now ev ctx w t Hui Hs).
  unfold gated. run_handler.
  destruct (leb _ zero); [auto |].
  rewrite Hlt. auto.
Qed.

(** ** Claims on the run tracker *)

(** C1, as stated, fails: a run-end delivered with no active destination
    returns before the reset and leaves the start instant set. *)
Lemma run_end_without_destination_keeps_start :
  let ext := tpsExtension noOptions in
  let w := after ext (RunStart 1000) initial in
  agentStartMs w = Some (ofZ 1000)
  /\ agentStartMs (after ext (RunEnd 6000 (mkEvent []) (mkCtx false)) w)
     = Some (ofZ 1000)
  /\ agentStartMs (after ext (RunEnd 6000 (mkEvent []) (mkCtx false)) w) <> None.
Proof.
  vm_compute. repeat split. discriminate.
Qed.

(** C1, amended: for every run-end signal handled while a run is in progress
    and the delivery context has an active destination, the start instant is
    cleared, whether or not the run produces a notification (a threshold
    gate, a non-positive elapsed time or a formatting error may suppress
    it); with no active destination the handler returns at once and the
    tracker is left as it was. *)
Theorem run_end_clears_start (o : Options) (now : Z) (ev : AgentEndEvent)
    (ctx : Ctx) (w : World) (t : number) :
  agentStartMs w = Some t ->
  (hasUI ctx = true -> agentStartMs (snd (onAgentEnd o now ev ctx w)) = None)
  /\ (hasUI ctx = false -> onAgentEnd o now ev ctx w = (Returned, w)).
Proof.
  intros Hs. split; intros Hui.
  - rewrite (onAgentEnd_running o now ev ctx w t Hui Hs), gated_start.
    reflexivity.
  - apply onAgentEnd_no_ui; exact Hui.
Qed.

Lemma run_end_clears_start_witness :
  let w := {| agentStartMs := Some (ofZ 1000); notified := [] |} in
  let ev := mkEvent [assistant [("output", VNumber (ofZ 0))]] in
  agentStartMs w = Some (ofZ 1000) /\ hasUI (mkCtx true) = true /\
  agentStartMs (snd (onAgentEnd DEFAULTS 6000 ev (mkCtx true) w)) = None.
Proof.
  intros w ev.
  assert (H1 : agentStartMs w = Some (ofZ 1000)) by reflexivity.
  assert (H2 : hasUI (mkCtx true) = true) by reflexivity.
  split; [exact H1 | split; [exact H2 |]].
  exact (proj1 (run_end_clears_start DEFAULTS 6000 ev (mkCtx true) w (ofZ 1000) H1) H2).
Defined.

(** C8, as stated, fails for options that are not well formed. With the
    threshold [minOutputTokensToNotify = NaN] the gate
    [output >= minOutputTokensToNotify] is false and the sink is called all
    the same; with [precision = 101] every gate passes and the sink is not
    called, the handler throwing [RangeError] from [toFixed]. *)
Lemma run_end_gate_mismatch :
  let w := after (tpsExtension noOptions) (RunStart 1000) initial in
  let nanThreshold := mkPartial (Some NaN) None None None None in
  let precision101 := mkPartial None None (Some (ofZ 101)) None None in
  let ev := mkEvent [assistant [("output", VNumber (ofZ 500))]] in
  let elapsedMs := sub (Date_now 6000) (Date_now 1000) in
  (leb NaN (output (aggregateUsage [])) = false
   /\ deliver (tpsExtension nanThreshold) (RunEnd 6000 (mkEvent []) (mkCtx true)) w
      = (Normal tt,
         {| agentStartMs := None;
            notified := [("TPS 0.0 tok/s, out 0, in 0, cache r/w 0/0, total 0, 5.0s",
                          "info")] |}))
  /\ (gtb elapsedMs zero = true
      /\ leb (minOutputTokensToNotify DEFAULTS) (output (aggregateUsage (messages ev))) = true
      /\ leb (minSecondsToNotify DEFAULTS) (div elapsedMs (ofZ 1000)) = true
      /\ deliver (tpsExtension precision101) (RunEnd 6000 ev (mkCtx true)) w
         = (Thrown RangeError, {| agentStartMs := None; notified := [] |})).
Proof.
  vm_compute. repeat split.
Qed.

(** C8, amended: with well-formed options (thresholds other than NaN, a
    precision [toFixed] accepts) and a run in progress, the sink is called,
    once, with the formatted line and severity ["info"], iff the delivery
    context has an active destination, [elapsed > 0],
    [output >= minOutputTokensToNotify] and
    [elapsedSeconds >= minSecondsToNotify]; if a gate fails nothing is emitted
    and in neither case does the handler raise. Whatever the options, with
    [minOutputTokensToNotify = 10] a run of output 5 yields no sink call, and
    a run-end with no run in progress returns with no notification. *)
Theorem run_end_notifies (o : Options) (now : Z) (ev : AgentEndEvent)
    (ctx : Ctx) (w : World) :
  (forall t0 : Z,
     wellFormed o = true -> timeValue t0 = true -> timeValue now = true ->
     agentStartMs w = Some (Date_now t0) ->
     let elapsedMs := sub (Date_now now) (Date_now t0) in
     let elapsedSeconds := div elapsedMs (ofZ 1000) in
     let usage := aggregateUsage (messages ev) in
     let pass := hasUI ctx && gtb elapsedMs zero
                 && leb (minOutputTokensToNotify o) (output usage)
                 && leb (minSecondsToNotify o) elapsedSeconds in
     exists line,
       formatNotification elapsedSeconds usage o = Ok line
       /\ onAgentEnd o now ev ctx w
          = (if pass then Normal tt else Returned,
             {| agentStartMs := if hasUI ctx then None else agentStartMs w;
                notified := if pass then (notified w ++ [(line, "info")])%list
                            else notified w |}))
  /\ (minOutputTokensToNotify o = ofZ 10 ->
      output (aggregateUsage (messages ev)) = ofZ 5 ->
      notified (snd (onAgentEnd o now ev ctx w)) = notified w
      /\ raised (fst (onAgentEnd o now ev ctx w)) = false)
  /\ (agentStartMs w = None -> onAgentEnd o now ev ctx w = (Returned, w)).
Proof.
  split; [| split].
  - intros t0 Hwf Ht0 Hnow Hs elapsedMs elapsedSeconds usage pass.
    unfold wellFormed in Hwf.
    apply andb_prop in Hwf as [Hwf Hprec]. apply andb_prop in Hwf as [Hout Hsec].
    apply negb_true_iff in Hout. apply negb_true_iff in Hsec.
    destruct (fractionDigits (precision o)) as [f |] eqn:Hf; [| discriminate].
    destruct (formatNotification_ok elapsedSeconds usage o f Hf) as [line Hline].
    exists line. split; [exact Hline |].
    destruct (hasUI ctx) eqn:Hui.
    + assert (Hms : isNaN elapsedMs = false)
        by (apply sub_not_nan; apply timeValue_finite; assumption).
      assert (Hsecs : isNaN elapsedSeconds = false)
        by (apply div_1000_not_nan; exact Hms).
      assert (Husage : isNaN (output usage) = false)
        by (apply (aggregate_not_nan Output)).
      rewrite (onAgentEnd_running o now ev ctx w _ Hui Hs).
      unfold pass.
      rewrite <- (leb_negb_gtb elapsedMs zero Hms eq_refl).
      rewrite <- (ltb_negb_leb (output usage) _ Husage Hout).
      rewrite <- (ltb_negb_leb elapsedSeconds _ Hsecs Hsec).
      unfold gated, setStart. run_handler.
      fold elapsedMs. fold elapsedSeconds. fold usage.
      destruct (leb elapsedMs zero); [reflexivity |].
      destruct (ltb (output usage) (minOutputTokensToNotify o)); [reflexivity |].
      destruct (ltb elapsedSeconds (minSecondsToNotify o)); [reflexivity |].
      rewrite Hline. reflexivity.
    + rewrite onAgentEnd_no_ui by exact Hui. destruct w; reflexivity.
  - intros Hmin Hout. apply onAgentEnd_below_threshold.
    rewrite Hmin, Hout. reflexivity.
  - apply onAgentEnd_idle.
Qed.

Lemma run_end_notifies_witness :
  let w := {| agentStartMs := Some (Date_now 1000); notified := [] |} in
  let o := mergeOptions DEFAULTS (mkPartial (Some (ofZ 10)) None None None None) in
  let ev := mkEvent [assistant [("output", VNumber (ofZ 5))]] in
  (wellFormed o = true /\ timeValue 1000 = true /\ timeValue 6000 = true
   /\ agentStartMs w = Some (Date_now 1000)
   /\ exists line,
        onAgentEnd o 6000 ev (mkCtx true) w
        = (Returned, {| agentStartMs := None; notified := [] |})
        /\ formatNotification (ofZ 5) (aggregateUsage (messages ev)) o = Ok line)
  /\ (minOutputTokensToNotify o = ofZ 10
      /\ output (aggregateUsage (messages ev)) = ofZ 5
      /\ notified (snd (onAgentEnd o 6000 ev (mkCtx true) w)) = notified w)
  /\ (agentStartMs initial = None
      /\ onAgentEnd o 6000 ev (mkCtx true) initial = (Returned, initial)).
Proof.
  intros w o ev.
  assert (H1 : wellFormed o = true) by reflexivity.
  assert (H2 : timeValue 1000 = true) by reflexivity.
  assert (H3 : timeValue 6000 = true) by reflexivity.
  assert (H4 : agentStartMs w = Some (Date_now 1000)) by reflexivity.
  assert (H5 : minOutputTokensToNotify o = ofZ 10) by reflexivity.
  assert (H6 : output (aggregateUsage (messages ev)) = ofZ 5) by reflexivity.
  assert (H7 : agentStartMs initial = None) by reflexivity.
  destruct (run_end_notifies o 6000 ev (mkCtx true) w) as (HA & HB & _).
  destruct (run_end_notifies o 6000 ev (mkCtx true) initial) as (_ & _ & HC).
  destruct (HA 1000 H1 H2 H3 H4) as (line & Hline & Hrun).
  split; [| split].
  - split; [exact H1 | split; [exact H2 | split; [exact H3 | split; [exact H4 |]]]].
    exists line. split; [exact Hrun | exact Hline].
  - split; [exact H5 | split; [exact H6 | exact (proj1 (HB H5 H6))]].
  - split; [exact H7 | exact (HC H7)].
Defined.

(** C10: whenever a run-end signal is handled while the delivery context has
    an active destination and a start instant is set, the start instant is
    reset before the elapsed-time and threshold gates run: the handler
    behaves as the gates do in the world where the start instant is already
    null. So whatever the gates decide the tracker ends Idle, and a second
    run-end right after it returns at once, emitting nothing. *)
Theorem run_end_resets_before_gates (o : Options) (now : Z)
    (ev : AgentEndEvent) (ctx : Ctx) (w : World) (t : number) :
  hasUI ctx = true -> agentStartMs w = Some t ->
  let w' := snd (onAgentEnd o now ev ctx w) in
  onAgentEnd o now ev ctx w
  = gated o (sub (Date_now now) t) ev (setStart w None)
  /\ agentStartMs w' = None
  /\ (forall now' ev' ctx', onAgentEnd o now' ev' ctx' w' = (Returned, w')).
Proof.
  intros Hui Hs w'.
  pose proof (onAgentEnd_running o now ev ctx w t Hui Hs) as Hrun.
  assert (Hidle : agentStartMs w' = None)
    by (unfold w'; rewrite Hrun, gated_start; reflexivity).
  split; [exact Hrun |]. split; [exact Hidle |].
  intros now' ev' ctx'. apply onAgentEnd_idle. exact Hidle.
Qed.

Lemma run_end_resets_before_gates_witness :
  let w := {| agentStartMs := Some (Date_now 1000); notified := [] |} in
  let ev := mkEvent [] in
  hasUI (mkCtx true) = true /\ agentStartMs w = Some (Date_now 1000)
  /\ agentStartMs (snd (onAgentEnd DEFAULTS 6000 ev (mkCtx true) w)) = None
  /\ onAgentEnd DEFAULTS 7000 ev (mkCtx true)
       (snd (onAgentEnd DEFAULTS 6000 ev (mkCtx true) w))
     = (Returned, snd (onAgentEnd DEFAULTS 6000 ev (mkCtx true) w)).
Proof.
  intros w ev.
  assert (H1 : hasUI (mkCtx true) = true) by reflexivity.
  assert (H2 : agentStartMs w = Some (Date_now 1000)) by reflexivity.
  destruct (run_end_resets_before_gates DEFAULTS 6000 ev (mkCtx true) w
              (Date_now 1000) H1 H2) as (_ & Hidle & Hsecond).
  split; [exact H1 | split; [exact H2 | split; [exact Hidle |]]].
  exact (Hsecond 7000 ev (mkCtx true)).
Defined.

(** * Further properties of the code *)

(** ** Integers as Numbers *)

Module IntFacts.

Lemma mant_spec (p : positive) :
  Zpos p < 2 ^ 53 -> Zpos (mant p) = Zpos p * 2 ^ (- expo p) /\ - 52 <= expo p <= 0.
Proof.
  intros Hp. pose proof (size_lt_pow p 53 Hp) as Hs.
  unfold mant, expo. rewrite shl_spec by lia.
  split; [f_equal; f_equal; lia | lia].
Qed.

(** Rounding the integer [c] given as [M * 2^E] gives its canonical form. *)
Lemma binary_round_integer (s : bool) (M c : positive) (E : Z) :
  Zpos c < 2 ^ 53 -> - 1074 <= E <= 0 ->
  Zpos M = Zpos c * 2 ^ (- E) ->
  binary_round prec emax s M E = S754_finite s (mant c) (expo c).
Proof.
  intros Hc HE HM. destruct (mant_spec c Hc) as [Hm He].
  assert (Hsize : Zpos (Pos.size (mant c)) = 53).
  { pose proof (size_lt_pow c 53 Hc). unfold mant. rewrite size_shl by lia. lia. }
  apply binary_round_canon; [exact Hsize | lia |].
  destruct (Z_le_gt_dec E (expo c)) as [Hle | Hgt].
  - left. split; [exact Hle |].
    rewrite HM, Hm, <- Z.mul_assoc, <- Z.pow_add_r by lia.
    f_equal. f_equal. lia.
  - right. split; [lia |].
    rewrite HM, Hm, <- Z.mul_assoc, <- Z.pow_add_r by lia.
    f_equal. f_equal. lia.
Qed.

Lemma ofZ_signed (s : bool) (p : positive) :
  Zpos p < 2 ^ 53 ->
  ofZ (cond_Zopp s (Zpos p)) = S754_finite s (mant p) (expo p).
Proof. destruct s; simpl; [apply ofZ_neg | apply ofZ_pos]. Qed.

(** [toZ] reads back the integer [ofZ] was given. *)
Lemma toZ_ofZ (n : Z) : Z.abs n < 2 ^ 53 -> toZ (ofZ n) = Some n.
Proof.
  assert (H : forall s p, Zpos p < 2 ^ 53 ->
            toZ (S754_finite s (mant p) (expo p)) = Some (cond_Zopp s (Zpos p))).
  { intros s p Hp. destruct (mant_spec p Hp) as [Hm He]. unfold toZ.
    destruct (Z.leb_spec 0 (expo p)) as [H0 | H0].
    - replace (expo p) with 0 in * by lia. simpl in Hm. rewrite Hm.
      f_equal. f_equal. simpl. lia.
    - assert (Hpow : 0 < 2 ^ (- expo p)) by (apply Z.pow_pos_nonneg; lia).
      rewrite Hm, Z.mod_mul, Z.div_mul by lia. reflexivity. }
  destruct n as [| p | p]; intros Hn; simpl in Hn.
  - reflexivity.
  - rewrite ofZ_pos by lia. apply (H false); lia.
  - rewrite ofZ_neg by lia. apply (H true); lia.
Qed.

Lemma compare_ofZ_pos (a b : positive) :
  Zpos a < 2 ^ 53 -> Zpos b < 2 ^ 53 ->
  SFcompare (ofZ (Zpos a)) (ofZ (Zpos b)) = Some (Zpos a ?= Zpos b).
Proof.
  intros Ha Hb. rewrite !ofZ_pos by assumption.
  destruct (mant_spec a Ha) as [Hma Hea]. destruct (mant_spec b Hb) as [Hmb Heb].
  pose proof (size_bounds a) as [Ha1 Ha2]. pose proof (size_bounds b) as [Hb1 Hb2].
  unfold SFcompare. f_equal.
  destruct (Z.compare_spec (expo a) (expo b)) as [Heq | Hlt | Hgt].
  - change (Pos.compare_cont Eq (mant a) (mant b)) with (Zpos (mant a) ?= Zpos (mant b)).
    rewrite Hma, Hmb, Heq.
    assert (Hpow : 0 < 2 ^ (- expo b)) by (apply Z.pow_pos_nonneg; lia).
    symmetry. apply Zmult_compare_compat_r. lia.
  - symmetry. apply Z.compare_lt_iff. unfold expo in Hlt.
    assert (2 ^ Zpos (Pos.size a) <= 2 ^ (Zpos (Pos.size b) - 1))
      by (apply Z.pow_le_mono_r; lia).
    lia.
  - symmetry. apply Z.compare_gt_iff. unfold expo in Hgt.
    assert (2 ^ Zpos (Pos.size b) <= 2 ^ (Zpos (Pos.size a) - 1))
      by (apply Z.pow_le_mono_r; lia).
    lia.
Qed.

(** Numbers of integers below [2^53] compare as the integers do. *)
Lemma compare_ofZ (a b : Z) :
  0 <= a < 2 ^ 53 -> 0 <= b < 2 ^ 53 ->
  SFcompare (ofZ a) (ofZ b) = Some (a ?= b).
Proof.
  intros Ha Hb.
  destruct a as [| a | a]; try lia; destruct b as [| b | b]; try lia.
  - reflexivity.
  - rewrite ofZ_pos by lia. reflexivity.
  - rewrite ofZ_pos by lia. reflexivity.
  - apply compare_ofZ_pos; lia.
Qed.

Lemma ltb_ofZ (a b : Z) :
  0 <= a < 2 ^ 53 -> 0 <= b < 2 ^ 53 -> ltb (ofZ a) (ofZ b) = (a <? b).
Proof.
  intros Ha Hb. unfold ltb, SFltb. rewrite compare_ofZ by assumption.
  unfold Z.ltb. destruct (a ?= b); reflexivity.
Qed.

Lemma leb_ofZ (a b : Z) :
  0 <= a < 2 ^ 53 -> 0 <= b < 2 ^ 53 -> leb (ofZ a) (ofZ b) = (a <=? b).
Proof.
  intros Ha Hb. unfold leb, SFleb. rewrite compare_ofZ by assumption.
  unfold Z.leb. destruct (a ?= b); reflexivity.
Qed.

Lemma sub_ofZ_pos (a b : positive) :
  Zpos a < 2 ^ 53 -> Zpos b < 2 ^ 53 ->
  sub (ofZ (Zpos a)) (ofZ (Zpos b)) = ofZ (Zpos a - Zpos b).
Proof.
  intros Ha Hb. rewrite (ofZ_pos a), (ofZ_pos b) by assumption.
  destruct (mant_spec a Ha) as [Hma Hea]. destruct (mant_spec b Hb) as [Hmb Heb].
  unfold sub, SFsub. simpl cond_Zopp. rewrite !shl_align_fst.
  set (ez := Z.min (expo a) (expo b)).
  assert (Hez : - 52 <= ez <= 0 /\ ez <= expo a /\ ez <= expo b) by (unfold ez; lia).
  assert (Hval : Zpos (shl (mant a) (expo a - ez)) - Zpos (shl (mant b) (expo b - ez))
                 = (Zpos a - Zpos b) * 2 ^ (- ez)).
  { rewrite !shl_spec by lia. rewrite Hma, Hmb.
    rewrite <- !Z.mul_assoc, <- !Z.pow_add_r by lia.
    replace (- expo a + (expo a - ez)) with (- ez) by lia.
    replace (- expo b + (expo b - ez)) with (- ez) by lia. ring. }
  assert (Hpow : 0 < 2 ^ (- ez)) by (apply Z.pow_pos_nonneg; lia).
  destruct (Zpos a - Zpos b) as [| c | c] eqn:Hc.
  - rewrite Z.mul_0_l in Hval. rewrite Hval. reflexivity.
  - destruct (Zpos (shl _ _) - Zpos (shl _ _)) as [| M | M] eqn:HM; try nia.
    unfold binary_normalize. rewrite ofZ_pos by lia.
    apply binary_round_integer; lia.
  - destruct (Zpos (shl _ _) - Zpos (shl _ _)) as [| M | M] eqn:HM; try nia.
    unfold binary_normalize. rewrite ofZ_neg by lia.
    apply binary_round_integer; try lia.
Qed.

(** Non-negative integers below [2^53] are subtracted exactly. *)
Lemma sub_ofZ (a b : Z) :
  0 <= a < 2 ^ 53 -> 0 <= b < 2 ^ 53 -> sub (ofZ a) (ofZ b) = ofZ (a - b).
Proof.
  intros Ha Hb.
  destruct a as [| a | a]; try lia; destruct b as [| b | b]; try lia.
  - reflexivity.
  - simpl Z.sub. rewrite ofZ_pos, ofZ_neg by lia. reflexivity.
  - rewrite Z.sub_0_r, ofZ_pos by lia. reflexivity.
  - apply sub_ofZ_pos; lia.
Qed.

Lemma gtb_ofZ_zero (d : Z) : Z.abs d < 2 ^ 53 -> gtb (ofZ d) zero = (0 <? d).
Proof.
  intros Hd. destruct d as [| p | p]; simpl in Hd.
  - reflexivity.
  - rewrite ofZ_pos by lia. reflexivity.
  - rewrite ofZ_neg by lia. reflexivity.
Qed.

Lemma leb_ofZ_zero (d : Z) : Z.abs d < 2 ^ 53 -> leb (ofZ d) zero = (d <=? 0).
Proof.
  intros Hd. destruct d as [| p | p]; simpl in Hd.
  - reflexivity.
  - rewrite ofZ_pos by lia. reflexivity.
  - rewrite ofZ_neg by lia. reflexivity.
Qed.

(** The integer quotient at the heart of a division is not negative. *)
Lemma div_core_nonneg (m1 m2 : positive) (e1 e2 : Z) :
  0 <= fst (fst (SFdiv_core_binary prec emax (Zpos m1) e1 (Zpos m2) e2)).
Proof.
  unfold SFdiv_core_binary.
  match goal with
  | |- context [Z.div_eucl ?a ?b] =>
      pose proof (Z_div_mod a b ltac:(lia)) as Hdm;
      assert (Ha : 0 <= a)
  end.
  { match goal with |- 0 <= match ?k with _ => _ end => destruct k end;
      try lia. apply Z.shiftl_nonneg. lia. }
  destruct (Z.div_eucl _ _) as [q r]. simpl. destruct Hdm as [Hq Hr]. nia.
Qed.

Lemma div_finite_signed (s1 s2 : bool) (m1 m2 : positive) (e1 e2 : Z) :
  signed (xorb s1 s2) (div (S754_finite s1 m1 e1) (S754_finite s2 m2 e2)).
Proof.
  unfold div, SFdiv.
  pose proof (div_core_nonneg m1 m2 e1 e2) as H.
  destruct (SFdiv_core_binary prec emax (Z.pos m1) e1 (Z.pos m2) e2)
    as [[mz ez] lz].
  apply binary_round_aux_signed. exact H.
Qed.

(** A quotient by a finite number other than zero is NaN only if the
    dividend is. *)
Lemma div_finite_not_nan (x : number) (s : bool) (m : positive) (e : Z) :
  isNaN x = false -> isNaN (div x (S754_finite s m e)) = false.
Proof.
  intros Hx.
  destruct x as [sx | sx | | sx mx ex]; try discriminate; try reflexivity.
  eapply signed_not_nan. apply div_finite_signed.
Qed.

(** The quotient of a non-negative number by a positive one is not
    negative. *)
Lemma div_nonneg (x : number) (m : positive) (e : Z) :
  nonneg x = true -> ltb (div x (S754_finite false m e)) zero = false.
Proof.
  intros Hx.
  destruct (nonneg_cases x Hx) as [[sx ->] | [-> | (mx & ex & ->)]];
    try reflexivity.
  pose proof (div_finite_signed false false mx m ex e) as Hs.
  destruct (div _ _) as [s' | s' | | s' m' e'];
    simpl in Hs; subst; try reflexivity; contradiction.
Qed.

End IntFacts.

Import IntFacts.

(** ** [fmtInt] *)

Lemma scaled_integer (m : positive) (e q : Z) :
  e <= 0 -> Zpos m = q * 2 ^ (- e) -> scaled m e 3 = q * 1000.
Proof.
  intros He Hm. unfold scaled.
  destruct (Z.leb_spec 0 e) as [H0 | H0].
  - replace e with 0 in * by lia. simpl in Hm. rewrite Hm. simpl. lia.
  - assert (Hpow : 0 < 2 ^ (- e)) by (apply Z.pow_pos_nonneg; lia).
    rewrite Z.pow_add_r by lia. rewrite Hm.
    change (2 ^ 1) with 2. change (10 ^ 3) with 1000.
    replace (2 * (q * 2 ^ (- e)) * 1000 + 2 ^ (- e))
      with (q * 1000 * (2 ^ (- e) * 2) + 2 ^ (- e)) by ring.
    rewrite Z.div_add_l by lia.
    rewrite Z.div_small by lia. lia.
Qed.

Lemma toLocaleString_integer (s : bool) (m : positive) (e q : Z) :
  e <= 0 -> 0 <= q -> Zpos m = q * 2 ^ (- e) ->
  toLocaleString (S754_finite s m e)
  = (if s then "-" else EmptyString) ++ group3 (digits q).
Proof.
  intros He Hq Hm. unfold toLocaleString, localeInteger, localeFraction.
  replace (1 <=? e) with false by (symmetry; apply Z.leb_gt; lia).
  rewrite (scaled_integer m e q He Hm).
  rewrite Z.div_mul, Z.mod_mul by lia.
  change (fraction3 0) with EmptyString. rewrite append_nil_r. reflexivity.
Qed.

Lemma groupFrom_ungroup (ds : string) (left : nat) :
  hasComma ds = false ->
  ungroup (string_of_list_ascii (groupFrom (list_ascii_of_string ds) left)) = ds.
Proof.
  revert left. induction ds as [| c ds IH]; intros left H.
  - reflexivity.
  - cbn [hasComma] in H. apply orb_false_iff in H as [Hc Hds].
    cbn [list_ascii_of_string groupFrom].
    destruct ((1 <? left)%nat && (Nat.modulo (left - 1) 3 =? 0)%nat);
      cbn [string_of_list_ascii ungroup];
      rewrite Hc, ?Ascii.eqb_refl, IH by exact Hds; reflexivity.
Qed.

Lemma readDigits_no_comma (s : string) (n : Z) :
  readDigits s = Some n -> hasComma s = false.
Proof.
  unfold readDigits. revert n. induction s as [| c s IH]; intros n H.
  - reflexivity.
  - cbn [NilEmpty.uint_of_string hasComma] in H |- *.
    destruct (NilEmpty.uint_of_string s) as [d |] eqn:E.
    + rewrite (IH _ eq_refl), orb_false_r.
      destruct (Ascii.eqb_spec c ",") as [-> | Hne]; [discriminate H | reflexivity].
    + destruct c as [[] [] [] [] [] [] [] []]; discriminate H.
Qed.

(** [fmtInt] drops the fraction and groups the integer part. *)
Lemma fmtInt_trunc (s : bool) (m : positive) (e : Z) :
  e <= 0 -> Zpos m / 2 ^ (- e) < 2 ^ 53 ->
  fmtInt (S754_finite s m e)
  = (if s then "-" else EmptyString) ++ group3 (digits (Zpos m / 2 ^ (- e))).
Proof.
  intros He Hq. unfold fmtInt, Math_trunc.
  destruct (Z.leb_spec 0 e) as [H0 | H0].
  - replace e with 0 in * by lia. simpl Z.opp. simpl (2 ^ 0).
    rewrite Z.div_1_r. apply toLocaleString_integer; simpl; lia.
  - rewrite Z.shiftr_div_pow2 by lia.
    assert (Hpow : 0 < 2 ^ (- e)) by (apply Z.pow_pos_nonneg; lia).
    pose proof (Z.div_pos (Zpos m) (2 ^ (- e)) ltac:(lia) Hpow) as Hnn.
    destruct (Zpos m / 2 ^ (- e)) as [| q | q] eqn:Eq; try lia.
    + reflexivity.
    + change (binary_normalize prec emax (cond_Zopp s (Zpos q)) 0 false)
        with (ofZ (cond_Zopp s (Zpos q))).
      rewrite ofZ_signed by exact Hq.
      destruct (mant_spec q Hq) as [Hm' He'].
      apply toLocaleString_integer; lia.
Qed.

(** X1: [fmtInt] prints the integer part of a number below [2^53] in
    magnitude, truncated toward zero and never rounded, in groups of three
    digits, after ["-"] when the number is negative; a number strictly
    between [-1] and [1] is printed ["0"], or ["-0"] when it is negative. *)
Theorem fmtInt_integer_part (s : bool) (m : positive) (e : Z) :
  e <= 0 -> Zpos m / 2 ^ (- e) < 2 ^ 53 ->
  fmtInt (S754_finite s m e)
  = (if s then "-" else EmptyString) ++ group3 (digits (Zpos m / 2 ^ (- e)))
  /\ (Zpos m < 2 ^ (- e) ->
      fmtInt (S754_finite s m e) = (if s then "-" else EmptyString) ++ "0").
Proof.
  intros He Hq. split; [apply fmtInt_trunc; assumption |].
  intros Hsmall. rewrite fmtInt_trunc by assumption.
  rewrite Z.div_small by lia. reflexivity.
Qed.

Lemma fmtInt_integer_part_witness :
  let x := div (ofZ (-39999)) (ofZ 20) in
  x = S754_finite true 8795873119882445 (-42)
  /\ -42 <= 0 /\ 8795873119882445 / 2 ^ 42 < 2 ^ 53
  /\ fmtInt x = "-" ++ group3 (digits 1999).
Proof.
  intros x.
  assert (H1 : -42 <= 0) by lia.
  assert (H2 : 8795873119882445 / 2 ^ 42 < 2 ^ 53) by (vm_compute; reflexivity).
  split; [vm_compute; reflexivity | split; [exact H1 | split; [exact H2 |]]].
  exact (proj1 (fmtInt_integer_part true 8795873119882445 (-42) H1 H2)).
Defined.

Lemma fmtInt_count (n : Z) :
  0 <= n < 2 ^ 53 -> fmtInt (ofZ n) = group3 (digits n).
Proof.
  intros Hn. destruct n as [| p | p]; try lia.
  - reflexivity.
  - rewrite ofZ_pos by lia. destruct (mant_spec p ltac:(lia)) as [Hm He].
    assert (Hq : Zpos (mant p) / 2 ^ (- expo p) = Zpos p)
      by (rewrite Hm; apply Z.div_mul; apply Z.pow_nonzero; lia).
    rewrite fmtInt_trunc by (rewrite ?Hq; lia).
    rewrite Hq. reflexivity.
Qed.

Lemma length_string_of_list (l : list ascii) :
  String.length (string_of_list_ascii l) = List.length l.
Proof. induction l as [| c l IH]; simpl; congruence. Qed.

Lemma length_list_of_string (s : string) :
  List.length (list_ascii_of_string s) = String.length s.
Proof. induction s as [| c s IH]; simpl; congruence. Qed.

Lemma length_groupFrom (ds : list ascii) :
  List.length (groupFrom ds (List.length ds))
  = (List.length ds + (List.length ds - 1) / 3)%nat.
Proof.
  induction ds as [| d rest IH]; [reflexivity |].
  cbn [groupFrom List.length]. rewrite Nat.sub_succ, Nat.sub_0_r.
  set (L := List.length rest) in *.
  pose proof (Nat.div_mod_eq L 3) as H1.
  pose proof (Nat.mod_upper_bound L 3 ltac:(lia)) as H2.
  pose proof (Nat.div_mod_eq (L - 1) 3) as H3.
  pose proof (Nat.mod_upper_bound (L - 1) 3 ltac:(lia)) as H4.
  destruct (Nat.ltb_spec 1 (S L)) as [Hlt | Hge];
    destruct (Nat.eqb_spec (Nat.modulo L 3) 0) as [Hz | Hnz];
    cbn [andb List.length]; rewrite IH; lia.
Qed.

(** X2: for a token count [n] (a non-negative integer below [2^53]) the
    text [fmtInt] prints is the decimal numeral of [n] with one [","] more
    for every three digits beyond the first: without its separators it reads
    back as [n]. *)
Theorem fmtInt_reads_back (n : Z) :
  0 <= n < 2 ^ 53 ->
  readDigits (ungroup (fmtInt (ofZ n))) = Some n
  /\ String.length (fmtInt (ofZ n))
     = (String.length (digits n) + (String.length (digits n) - 1) / 3)%nat.
Proof.
  intros Hn. rewrite fmtInt_count by exact Hn.
  pose proof (readDigits_digits n ltac:(lia)) as Hread.
  unfold group3. split.
  - rewrite groupFrom_ungroup by (eapply readDigits_no_comma; exact Hread).
    exact Hread.
  - rewrite length_string_of_list, <- length_list_of_string.
    apply length_groupFrom.
Qed.

Lemma fmtInt_reads_back_witness :
  0 <= 1234567 < 2 ^ 53
  /\ fmtInt (ofZ 1234567) = "1,234,567"
  /\ readDigits (ungroup (fmtInt (ofZ 1234567))) = Some 1234567.
Proof.
  assert (H : 0 <= 1234567 < 2 ^ 53) by (split; [lia | reflexivity]).
  split; [exact H | split; [reflexivity |]].
  exact (proj1 (fmtInt_reads_back 1234567 H)).
Defined.

(** ** The aggregate of token counts *)

Lemma counts_app (A B : list value) :
  forallb countsOnly (A ++ B) = true -> withinExact (A ++ B) = true ->
  (forallb countsOnly A = true /\ withinExact A = true)
  /\ (forallb countsOnly B = true /\ withinExact B = true).
Proof.
  intros Hall Hw. rewrite forallb_app in Hall.
  apply andb_prop in Hall as [HA HB].
  assert (H : forall f, total f A < 2 ^ 53 /\ total f B < 2 ^ 53).
  { intros f. pose proof (withinExact_spec f _ Hw) as H.
    rewrite total_app in H.
    pose proof (total_nonneg f A HA). pose proof (total_nonneg f B HB). lia. }
  assert (Hwithin : forall l, (forall f, total f l < 2 ^ 53) -> withinExact l = true).
  { intros l Hl. unfold withinExact. rewrite forallb_forall.
    intros f _. apply Z.ltb_lt. apply Hl. }
  split; (split; [assumption | apply Hwithin; intros f; apply H]).
Qed.

(** X3: when the counted events carry token counts whose sums stay below
    [2^53], every counter of the aggregate is the exact integer sum of what
    the events carry for it (no rounding), and [fmtInt] shows that sum. *)
Theorem aggregate_token_totals (ms : list value) (f : field) :
  forallb countsOnly ms = true -> withinExact ms = true ->
  toZ (proj f (aggregateUsage ms)) = Some (total f ms)
  /\ fmtInt (proj f (aggregateUsage ms)) = group3 (digits (total f ms)).
Proof.
  intros Hall Hw. rewrite (aggregate_exact f ms Hall Hw).
  pose proof (total_nonneg f ms Hall) as H0.
  pose proof (withinExact_spec f ms Hw) as H1.
  split; [apply toZ_ofZ; lia | apply fmtInt_count; lia].
Qed.

Lemma aggregate_token_totals_witness :
  let ms := [assistant [("input", VNumber (ofZ 1200)); ("output", VNumber (ofZ 300))];
             VObject [("role", VString "user")];
             assistant [("input", VNumber (ofZ 34)); ("cacheRead", VNumber (ofZ 9000))]] in
  forallb countsOnly ms = true /\ withinExact ms = true
  /\ total Input ms = 1234
  /\ toZ (input (aggregateUsage ms)) = Some 1234
  /\ fmtInt (input (aggregateUsage ms)) = group3 (digits 1234).
Proof.
  intros ms.
  assert (H1 : forallb countsOnly ms = true) by reflexivity.
  assert (H2 : withinExact ms = true) by reflexivity.
  destruct (aggregate_token_totals ms Input H1 H2) as [Hz Hf].
  split; [exact H1 | split; [exact H2 | split; [reflexivity |]]].
  split; [exact Hz | exact Hf].
Defined.

(** X4: on token counts the counters only grow: appending events never
    lowers a counter of the aggregate. *)
Theorem aggregate_monotone_on_counts (A B : list value) (f : field) :
  forallb countsOnly (A ++ B) = true -> withinExact (A ++ B) = true ->
  leb (proj f (aggregateUsage A)) (proj f (aggregateUsage (A ++ B))) = true.
Proof.
  intros Hall Hw.
  destruct (counts_app A B Hall Hw) as [[HA HwA] [HB HwB]].
  rewrite (aggregate_exact f A HA HwA), (aggregate_exact f _ Hall Hw).
  pose proof (withinExact_spec f _ Hw) as H. rewrite total_app in H |- *.
  pose proof (total_nonneg f A HA). pose proof (total_nonneg f B HB).
  rewrite leb_ofZ by lia. apply Z.leb_le. lia.
Qed.

Lemma aggregate_monotone_on_counts_witness :
  let A := [assistant [("output", VNumber (ofZ 500))]] in
  let B := [VNull; assistant [("output", VNumber (ofZ 0))];
            assistant [("output", VNumber (ofZ 41))]] in
  forallb countsOnly (A ++ B) = true /\ withinExact (A ++ B) = true
  /\ leb (output (aggregateUsage A)) (output (aggregateUsage (A ++ B))) = true.
Proof.
  intros A B.
  assert (H1 : forallb countsOnly (A ++ B) = true) by reflexivity.
  assert (H2 : withinExact (A ++ B) = true) by reflexivity.
  split; [exact H1 | split; [exact H2 |]].
  exact (aggregate_monotone_on_counts A B Output H1 H2).
Defined.

(** ** The floor of the elapsed time *)

Lemma compare_eq_finite (x : number) (m : positive) (e : Z) :
  SFcompare x (S754_finite false m e) = Some Eq -> x = S754_finite false m e.
Proof.
  destruct x as [s | s | | s m' e']; simpl; try discriminate.
  - destruct s; discriminate.
  - destruct s; try discriminate.
    destruct (Z.compare_spec e' e) as [-> | |]; try discriminate.
    intros H. injection H as H.
    change (Pos.compare_cont Eq m' m) with (Pos.compare m' m) in H.
    apply Pos.compare_eq in H. congruence.
Qed.

(** The divisor of the throughput, for an elapsed time other than NaN. *)
Lemma floor_cases (e : number) :
  isNaN e = false ->
  (leb e eps = true -> Math_max e eps = eps)
  /\ (ltb eps e = true -> Math_max e eps = e)
  /\ gtb (Math_max e eps) zero = true
  /\ (isFinite e = true -> exists s m x, Math_max e eps = S754_finite s m x).
Proof.
  intros He.
  assert (Hmax : Math_max e eps = if ltb e eps then eps else e).
  { destruct e as [s | s | | s m x]; try discriminate He; try reflexivity.
    destruct s; reflexivity. }
  destruct (compare_not_nan e eps He eq_refl) as [c Hc].
  assert (Hrev : SFcompare eps e = Some (CompOpp c))
    by (rewrite (compare_antisym e eps), Hc; reflexivity).
  rewrite Hmax. unfold leb, SFleb, ltb, SFltb. rewrite Hc, Hrev.
  destruct c; cbn [CompOpp].
  - apply compare_eq_finite in Hc. subst e.
    repeat split; try reflexivity; try discriminate. unfold eps; eauto.
  - repeat split; try reflexivity; try discriminate. unfold eps; eauto.
  - destruct e as [s | s | | s m x]; try discriminate He;
      destruct s; try discriminate Hc;
      repeat split; try reflexivity; try discriminate; eauto.
Qed.

(** X5: [formatNotification] never divides by zero. For an elapsed time
    other than NaN and a precision [toFixed] accepts, the throughput its
    first segment prints is [usage.output] divided by the elapsed seconds
    when these are above [1e-9], and by [1e-9] when they are not (zero and
    negative elapsed times included); the divisor is positive in both cases,
    and when the elapsed time is finite the throughput is NaN only if
    [usage.output] is. *)
Theorem throughput_floor (e : number) (u : Usage) (o : Options) (p : Z) :
  fractionDigits (precision o) = Some p -> isNaN e = false ->
  (ltb eps e = true ->
   exists rest,
     formatParts e u o
     = Ok (("TPS " ++ fixedText (div (output u) e) p ++ " tok/s") :: rest))
  /\ (leb e eps = true ->
      exists rest,
        formatParts e u o
        = Ok (("TPS " ++ fixedText (div (output u) eps) p ++ " tok/s") :: rest))
  /\ gtb (Math_max e eps) zero = true
  /\ (isFinite e = true -> isNaN (output u) = false ->
      exists t rest,
        formatParts e u o = Ok (("TPS " ++ fixedText t p ++ " tok/s") :: rest)
        /\ isNaN t = false).
Proof.
  intros Hp He.
  destruct (floor_cases e He) as (Hle & Hlt & Hpos & Hfin).
  destruct (formatParts_head e u o p Hp) as [rest Hparts].
  split; [| split; [| split; [exact Hpos |]]].
  - intros H. rewrite (Hlt H) in Hparts. exists rest. exact Hparts.
  - intros H. rewrite (Hle H) in Hparts. exists rest. exact Hparts.
  - intros Hf Hout. destruct (Hfin Hf) as (s & m & x & Hm).
    exists (div (output u) (Math_max e eps)), rest.
    split; [exact Hparts |].
    rewrite Hm. apply div_finite_not_nan. exact Hout.
Qed.

Lemma throughput_floor_witness :
  let u := {| input := ofZ 1000; output := ofZ 500; cacheRead := ofZ 200;
              cacheWrite := ofZ 50; totalTokens := ofZ 1750 |} in
  fractionDigits (precision DEFAULTS) = Some 1 /\ isNaN zero = false
  /\ leb zero eps = true
  /\ (exists rest,
        formatParts zero u DEFAULTS
        = Ok (("TPS " ++ fixedText (div (ofZ 500) eps) 1 ++ " tok/s") :: rest))
  /\ fixedText (div (ofZ 500) eps) 1 = "500000000000.0".
Proof.
  intros u.
  assert (H1 : fractionDigits (precision DEFAULTS) = Some 1) by reflexivity.
  assert (H2 : isNaN zero = false) by reflexivity.
  assert (H3 : leb zero eps = true) by reflexivity.
  destruct (throughput_floor zero u DEFAULTS 1 H1 H2) as (_ & Hfloor & _ & _).
  split; [exact H1 | split; [exact H2 | split; [exact H3 |]]].
  split; [exact (Hfloor H3) | vm_compute; reflexivity].
Defined.

(** ** Runs measured by the clock *)

Lemma elapsed_exact (t0 now : Z) :
  afterEpoch t0 = true -> afterEpoch now = true ->
  sub (Date_now now) (Date_now t0) = ofZ (now - t0)
  /\ Z.abs (now - t0) < 2 ^ 53.
Proof.
  unfold afterEpoch, Date_now. intros H0 H1.
  apply andb_prop in H0 as [H0 H0']. apply andb_prop in H1 as [H1 H1'].
  apply Z.leb_le in H0, H0', H1, H1'.
  change (2 ^ 53) with 9007199254740992.
  split; [apply sub_ofZ; change (2 ^ 53) with 9007199254740992; lia | lia].
Qed.

Lemma ltb_across_zero (x y : number) :
  ltb x zero = false -> isNaN x = false -> leb y zero = true -> ltb x y = false.
Proof.
  destruct x as [a | a | | a m e], y as [b | b | | b n f];
    try discriminate; try reflexivity;
    destruct a, b; try discriminate; reflexivity.
Qed.

(** X6: with an integer threshold [T] of output tokens, a seconds threshold
    that is zero or negative, a precision [toFixed] accepts, an active
    destination and clock readings after the epoch, a run-end whose messages
    carry token counts calls the sink, once and with severity ["info"], iff
    the clock has advanced since the run-start and the exact sum of the
    output tokens is at least [T]; the line is that of the formatter for the
    elapsed [(now - start) / 1000] seconds, and the tracker ends Idle either
    way. *)
Theorem run_end_on_counts (o : Options) (t0 now T p : Z) (ev : AgentEndEvent)
    (ctx : Ctx) (w : World) :
  minOutputTokensToNotify o = ofZ T -> 0 <= T < 2 ^ 53 ->
  leb (minSecondsToNotify o) zero = true ->
  fractionDigits (precision o) = Some p ->
  afterEpoch t0 = true -> afterEpoch now = true ->
  agentStartMs w = Some (Date_now t0) -> hasUI ctx = true ->
  forallb countsOnly (messages ev) = true -> withinExact (messages ev) = true ->
  let pass := (t0 <? now) && (T <=? total Output (messages ev)) in
  exists line,
    formatNotification (div (ofZ (now - t0)) (ofZ 1000))
      (aggregateUsage (messages ev)) o = Ok line
    /\ onAgentEnd o now ev ctx w
       = (if pass then Normal tt else Returned,
          {| agentStartMs := None;
             notified := if pass then (notified w ++ [(line, "info")])%list
                         else notified w |}).
Proof.
  intros Hmin HT Hsec Hprec Ht0 Hnow Hs Hui Hall Hw pass.
  destruct (formatNotification_ok (div (ofZ (now - t0)) (ofZ 1000))
              (aggregateUsage (messages ev)) o p Hprec) as [line Hline].
  exists line. split; [exact Hline |].
  destruct (elapsed_exact t0 now Ht0 Hnow) as [Hel Habs].
  pose proof (aggregate_exact Output (messages ev) Hall Hw) as Hout.
  simpl proj in Hout.
  pose proof (total_nonneg Output (messages ev) Hall) as Hk0.
  pose proof (withinExact_spec Output (messages ev) Hw) as Hk1.
  rewrite (onAgentEnd_running o now ev ctx w _ Hui Hs), Hel.
  unfold gated, setStart. run_handler.
  rewrite leb_ofZ_zero by exact Habs.
  rewrite Hout, Hmin, ltb_ofZ by lia.
  unfold pass.
  destruct (Z.leb_spec (now - t0) 0) as [Hd | Hd];
    destruct (Z.ltb_spec t0 now) as [Hlt | Hge]; try lia; [reflexivity |].
  destruct (Z.ltb_spec (total Output (messages ev)) T) as [Hk | Hk];
    destruct (Z.leb_spec T (total Output (messages ev))) as [Hk' | Hk'];
    try lia; [reflexivity |].
  assert (Hquot : ltb (div (ofZ (now - t0)) (ofZ 1000)) (minSecondsToNotify o) = false).
  { destruct (now - t0) as [| d | d] eqn:Ed; try lia.
    rewrite ofZ_pos by (simpl in Habs; lia).
    change (ofZ 1000) with (S754_finite false 8796093022208000 (-43)).
    apply ltb_across_zero; [apply div_nonneg; reflexivity | | exact Hsec].
    apply div_finite_not_nan. reflexivity. }
  rewrite Hquot, Hline. reflexivity.
Qed.

Lemma run_end_on_counts_witness :
  let w := after (tpsExtension noOptions) (RunStart 1700000000000) initial in
  let ev := mkEvent [assistant [("input", VNumber (ofZ 1000)); ("output", VNumber (ofZ 500))]] in
  minOutputTokensToNotify DEFAULTS = ofZ 1 /\ 0 <= 1 < 2 ^ 53
  /\ leb (minSecondsToNotify DEFAULTS) zero = true
  /\ fractionDigits (precision DEFAULTS) = Some 1
  /\ afterEpoch 1700000000000 = true /\ afterEpoch 1700000005000 = true
  /\ agentStartMs w = Some (Date_now 1700000000000) /\ hasUI (mkCtx true) = true
  /\ forallb countsOnly (messages ev) = true /\ withinExact (messages ev) = true
  /\ exists line,
       onAgentEnd DEFAULTS 1700000005000 ev (mkCtx true) w
       = (Normal tt, {| agentStartMs := None; notified := [(line, "info")] |}).
Proof.
  intros w ev.
  assert (H1 : minOutputTokensToNotify DEFAULTS = ofZ 1) by reflexivity.
  assert (H2 : 0 <= 1 < 2 ^ 53) by (split; [lia | reflexivity]).
  assert (H3 : leb (minSecondsToNotify DEFAULTS) zero = true) by reflexivity.
  assert (H4 : fractionDigits (precision DEFAULTS) = Some 1) by reflexivity.
  assert (H5 : afterEpoch 1700000000000 = true) by reflexivity.
  assert (H6 : afterEpoch 1700000005000 = true) by reflexivity.
  assert (H7 : agentStartMs w = Some (Date_now 1700000000000)) by reflexivity.
  assert (H8 : hasUI (mkCtx true) = true) by reflexivity.
  assert (H9 : forallb countsOnly (messages ev) = true) by reflexivity.
  assert (H10 : withinExact (messages ev) = true) by reflexivity.
  destruct (run_end_on_counts DEFAULTS 1700000000000 1700000005000 1 1 ev
              (mkCtx true) w H1 H2 H3 H4 H5 H6 H7 H8 H9 H10) as (line & _ & Hrun).
  repeat (split; [assumption |]).
  exists line. exact Hrun.
Defined.

(** ** Sequences of signals *)

Lemma gated_notified (o : Options) (ms : number) (ev : AgentEndEvent) (w : World) :
  exists more,
    notified (snd (gated o ms ev w)) = (notified w ++ more)%list
    /\ (List.length more <= 1)%nat
    /\ Forall (fun n => snd n = "info") more.
Proof.
  assert (Hnone : exists more, notified w = (notified w ++ more)%list
                               /\ (List.length more <= 1)%nat
                               /\ Forall (fun n => snd n = "info") more).
  { exists []. rewrite app_nil_r. repeat split; [simpl; lia | constructor]. }
  unfold gated. run_handler.
  destruct (leb ms zero); [exact Hnone |].
  destruct (ltb _ (minOutputTokensToNotify o)); [exact Hnone |].
  destruct (ltb _ (minSecondsToNotify o)); [exact Hnone |].
  destruct (formatNotification _ _ o) as [line | err]; [| exact Hnone].
  exists [(line, "info")]. simpl. repeat split; [lia | repeat constructor].
Qed.

(** One signal: the sink only receives more, with severity ["info"], and a
    notification uses up the run in progress. *)
Lemma deliver_step (user : PartialOptions) (s : signal) (w : World) :
  let w' := after (tpsExtension user) s w in
  exists more,
    notified w' = (notified w ++ more)%list
    /\ Forall (fun n => snd n = "info") more
    /\ (List.length more + pending w'
        <= pending w + (if isRunStart s then 1 else 0))%nat.
Proof.
  destruct s as [now | now ev ctx]; intros w'; subst w'; cbn [isRunStart].
  - exists []. unfold pending. simpl.
    rewrite app_nil_r. repeat split; [constructor | destruct (agentStartMs w); lia].
  - change (after (tpsExtension user) (RunEnd now ev ctx) w)
      with (snd (onAgentEnd (mergeOptions DEFAULTS user) now ev ctx w)).
    set (o := mergeOptions DEFAULTS user).
    destruct (hasUI ctx) eqn:Hui.
    + destruct (agentStartMs w) as [t |] eqn:Hs.
      * rewrite (onAgentEnd_running o now ev ctx w t Hui Hs).
        destruct (gated_notified o (sub (Date_now now) t) ev (setStart w None))
          as (more & Hn & Hlen & Hinfo).
        exists more. split; [exact Hn | split; [exact Hinfo |]].
        unfold pending. rewrite gated_start, Hs. simpl. lia.
      * rewrite (onAgentEnd_idle o now ev ctx w Hs).
        exists []. simpl. rewrite app_nil_r. repeat split; [constructor | lia].
    + rewrite (onAgentEnd_no_ui o now ev ctx w Hui).
      exists []. simpl. rewrite app_nil_r. repeat split; [constructor | lia].
Qed.

(** X7: over any sequence of signals the sink only ever receives more
    calls, each with severity ["info"], and at most one per run-start:
    the calls made during the sequence, plus the run still in progress at
    its end, are no more than the run-start signals of the sequence plus
    the run in progress at its beginning. *)
Theorem notifications_bounded_by_starts (user : PartialOptions)
    (signals : list signal) (w : World) :
  let w' := runAll (tpsExtension user) signals w in
  exists more,
    notified w' = (notified w ++ more)%list
    /\ Forall (fun n => snd n = "info") more
    /\ (List.length more + pending w'
        <= pending w + List.length (filter isRunStart signals))%nat.
Proof.
  revert w. induction signals as [| s rest IH]; intros w; cbn [runAll fold_left].
  - exists []. rewrite app_nil_r. repeat split; [constructor | simpl; lia].
  - destruct (deliver_step user s w) as (m1 & Hn1 & Hi1 & Hl1).
    destruct (IH (after (tpsExtension user) s w)) as (m2 & Hn2 & Hi2 & Hl2).
    fold (runAll (tpsExtension user) rest (after (tpsExtension user) s w)).
    exists (m1 ++ m2)%list.
    split; [rewrite Hn2, Hn1, app_assoc; reflexivity |].
    split; [apply Forall_app; split; assumption |].
    rewrite length_app. cbn [filter].
    destruct (isRunStart s); cbn [List.length] in *; lia.
Qed.

(** X8: a run-start emits nothing, and a second run-start before the
    run-end overwrites the first: whatever follows, the tracker behaves as
    if only the later run-start had been delivered. *)
Theorem run_start_overwrites (user : PartialOptions) (t1 t2 : Z)
    (rest : list signal) (w : World) :
  let ext := tpsExtension user in
  notified (after ext (RunStart t1) w) = notified w
  /\ agentStartMs (after ext (RunStart t1) w) = Some (Date_now t1)
  /\ runAll ext (RunStart t1 :: RunStart t2 :: rest) w
     = runAll ext (RunStart t2 :: rest) w.
Proof.
  split; [reflexivity | split; [reflexivity |]].
  cbn [runAll fold_left]. reflexivity.
Qed.

(** ** The other numerals of the line *)




(** ** A precision [toFixed] rejects *)

(** The fraction digits an integer precision asks for. *)
Lemma fractionDigits_integer (q : Z) :
  Z.abs q < 2 ^ 53 ->
  fractionDigits (ofZ q) = if (0 <=? q) && (q <=? 100) then Some q else None.
Proof.
  assert (H : forall s p, Zpos p < 2 ^ 53 ->
            fractionDigits (S754_finite s (mant p) (expo p))
            = if (0 <=? cond_Zopp s (Zpos p)) && (cond_Zopp s (Zpos p) <=? 100)
              then Some (cond_Zopp s (Zpos p)) else None).
  { intros s p Hp. destruct (mant_spec p Hp) as [Hm He]. unfold fractionDigits.
    assert (Ht : (if 0 <=? expo p then Zpos (mant p) * 2 ^ expo p
                  else Z.shiftr (Zpos (mant p)) (- expo p)) = Zpos p).
    { destruct (Z.leb_spec 0 (expo p)) as [H0 | H0].
      - replace (expo p) with 0 in * by lia. simpl in Hm. rewrite Hm. simpl. lia.
      - rewrite Z.shiftr_div_pow2 by lia. rewrite Hm.
        apply Z.div_mul. apply Z.pow_nonzero; lia. }
    rewrite Ht. reflexivity. }
  intros Hq. destruct q as [| p | p]; simpl in Hq.
  - reflexivity.
  - rewrite ofZ_pos by lia. apply (H false). lia.
  - rewrite ofZ_neg by lia. apply (H true). lia.
Qed.

(** X10: a precision outside what [toFixed] accepts (an integer below 0 or
    above 100, or any other value truncating outside that range) keeps the
    sink from ever being called: a run-end that passes every gate throws
    [RangeError] out of the handler, after the start instant has been
    cleared. *)
Theorem run_end_range_error (o : Options) (now : Z) (ev : AgentEndEvent)
    (ctx : Ctx) (w : World) :
  fractionDigits (precision o) = None ->
  notified (snd (onAgentEnd o now ev ctx w)) = notified w
  /\ (forall t,
        hasUI ctx = true -> agentStartMs w = Some t ->
        let elapsedMs := sub (Date_now now) t in
        leb elapsedMs zero = false ->
        ltb (output (aggregateUsage (messages ev))) (minOutputTokensToNotify o) = false ->
        ltb (div elapsedMs (ofZ 1000)) (minSecondsToNotify o) = false ->
        onAgentEnd o now ev ctx w = (Thrown RangeError, setStart w None))
  /\ (forall q, Z.abs q < 2 ^ 53 -> q < 0 \/ 100 < q ->
        fractionDigits (ofZ q) = None).
Proof.
  intros Hbad. split; [| split].
  - destruct (hasUI ctx) eqn:Hui; [| rewrite onAgentEnd_no_ui by exact Hui; reflexivity].
    destruct (agentStartMs w) as [t |] eqn:Hs;
      [| rewrite onAgentEnd_idle by exact Hs; reflexivity].
    rewrite (onAgentEnd_running o now ev ctx w t Hui Hs).
    unfold gated. run_handler.
    destruct (leb _ zero); [reflexivity |].
    destruct (ltb _ (minOutputTokensToNotify o)); [reflexivity |].
    destruct (ltb _ (minSecondsToNotify o)); [reflexivity |].
    rewrite formatNotification_throw by exact Hbad. reflexivity.
  - intros t Hui Hs elapsedMs H1 H2 H3.
    rewrite (onAgentEnd_running o now ev ctx w t Hui Hs).
    unfold gated. run_handler. fold elapsedMs.
    rewrite H1, H2, H3, formatNotification_throw by exact Hbad. reflexivity.
  - intros q Hq Hout. rewrite fractionDigits_integer by exact Hq.
    destruct (Z.leb_spec 0 q), (Z.leb_spec q 100); try reflexivity; lia.
Qed.

Lemma run_end_range_error_witness :
  let o := mergeOptions DEFAULTS (mkPartial None None (Some (ofZ (-1))) None None) in
  let w := {| agentStartMs := Some (Date_now 1000); notified := [] |} in
  let ev := mkEvent [assistant [("output", VNumber (ofZ 500))]] in
  fractionDigits (precision o) = None
  /\ onAgentEnd o 6000 ev (mkCtx true) w
     = (Thrown RangeError, {| agentStartMs := None; notified := [] |}).
Proof.
  intros o w ev.
  assert (H : fractionDigits (precision o) = None) by reflexivity.
  split; [exact H |].
  destruct (run_end_range_error o 6000 ev (mkCtx true) w H) as (_ & Hthrow & _).
  exact (Hthrow (Date_now 1000) eq_refl eq_refl eq_refl eq_refl eq_refl).
Defined.
